(** * Chill-Fill-Bot: wallet custody and disclosure throttling

    A shallow embedding of two services of the Telegram bot:

    - [RateLimiter]: [RateLimiterService] (rateLimiter.ts), the sliding
      window and cooldown throttle keyed by [userId:action];
    - [WalletEnhanced]: [WalletEnhancedService] (walletEnhanced.ts), the
      passphrase store, key derivation, sealing of private key and mnemonic,
      and decrypt-on-demand.

    Both services are TypeScript classes that mutate process-local [Map]s.
    They are embedded as state-passing programs in a small monad each; the
    wall clock ([Date.now()], [new Date()]) is an explicit argument, and the
    operating system's random source is an explicit byte stream with a read
    cursor kept in the state.  JavaScript numbers that hold integers (user
    ids, millisecond timestamps, counters) are modelled as [Z]; buffers are
    [list byte]; hex strings are [string]. *)

From Stdlib Require Import ZArith String Ascii List Bool Lia.
From Stdlib.Strings Require Import Byte.
From stdpp Require Import base option list gmap strings pretty.

Import ListNotations.
Local Open Scope Z_scope.

(** ** JavaScript idioms used by both services *)

Module JS.

(** [`${n}`] for an integral number: its decimal representation. *)
Definition show (n : Z) : string := pretty n.

(** Truthiness of an optional string ([undefined] and [""] are falsy):
    the value when truthy. *)
Definition truthy_string (s : option string) : option string :=
  match s with
  | Some p => if String.eqb p "" then None else Some p
  | None => None
  end.

(** Truthiness of an optional number ([undefined] and [0] are falsy). *)
Definition truthy_number (n : option Z) : option Z :=
  match n with
  | Some k => if k =? 0 then None else Some k
  | None => None
  end.

(** [Math.ceil(x / d)] on integers, for a positive divisor. *)
Definition ceil_div (x d : Z) : Z := - ((- x) / d).

End JS.

(** ** rateLimiter.ts *)

Module RateLimiter.

Record RateLimit := mkRateLimit {
  userId : Z;
  action : string;
  count : Z;
  windowStart : Z;
  lastAttempt : Z
}.

Record RateLimitConfig := mkConfig {
  windowMs : Z;
  maxAttempts : Z;
  cooldownMs : option Z
}.

(** The two private fields of the class. *)
Record RateLimiterService := mkService {
  attempts : gmap string RateLimit;
  configs : gmap string RateLimitConfig
}.

(** The object literal returned by [canPerformAction]; every field but
    [allowed] is optional. *)
Record Verdict := mkVerdict {
  allowed : bool;
  remainingAttempts : option Z;
  resetTime : option Z;
  cooldownUntil : option Z;
  message : option string
}.

(** The table the class is constructed with. *)
Definition default_configs : gmap string RateLimitConfig :=
  list_to_map [
    ("supply", mkConfig 60000 3 (Some 30000));
    ("borrow", mkConfig 60000 3 (Some 30000));
    ("repay", mkConfig 60000 5 (Some 15000));
    ("redeem", mkConfig 60000 5 (Some 15000));
    ("claim", mkConfig 300000 2 (Some 60000));
    ("approve", mkConfig 180000 3 (Some 30000));
    ("export_private_key", mkConfig 300000 2 (Some 120000));
    ("export_mnemonic", mkConfig 300000 2 (Some 120000));
    ("position", mkConfig 60000 10 None);
    ("markets", mkConfig 60000 15 None);
    ("balance", mkConfig 60000 10 None)
  ].

Definition new_service : RateLimiterService :=
  mkService ∅ default_configs.

(** *** The state monad of the service's methods *)

Definition M (A : Type) : Type := RateLimiterService -> A * RateLimiterService.

Definition ret {A} (a : A) : M A := fun s => (a, s).

Definition bind {A B} (m : M A) (k : A -> M B) : M B :=
  fun s => let (a, s') := m s in k a s'.

Declare Scope limiter_scope.
Delimit Scope limiter_scope with limiter.
Notation "x <- m ;; k" := (bind m (fun x => k))
  (at level 100, m at next level, right associativity) : limiter_scope.
Notation "m ;;; k" := (bind m (fun _ => k))
  (at level 100, right associativity) : limiter_scope.
Local Open Scope limiter_scope.

(** [this.configs[action]], for an action that is a key of the table or no
    property of it at all.  The table is a plain object, so a name inherited
    from [Object.prototype] (["constructor"], ["toString"], ...) that is not
    a key of the table reads as a truthy value without the three fields in
    the code and as [None] here; statements about unconfigured actions
    exclude those names ([LimiterNotions.object_prototype_names]). *)
Definition config_of (act : string) : M (option RateLimitConfig) :=
  fun s => (configs s !! act, s).

(** [this.attempts.get(key)] *)
Definition attempts_get (key : string) : M (option RateLimit) :=
  fun s => (attempts s !! key, s).

(** [this.attempts.set(key, v)]; also the effect of assigning to the fields
    of the object stored under [key], which no other key aliases. *)
Definition attempts_set (key : string) (v : RateLimit) : M unit :=
  fun s => (tt, mkService (<[key := v]> (attempts s)) (configs s)).

(** [`${userId}:${action}`] *)
Definition key_of (uid : Z) (act : string) : string :=
  JS.show uid +:+ ":" +:+ act.

Definition cooldown_message (remainingCooldown : Z) : string :=
  "Action blocked. Cooldown active for " +:+ JS.show remainingCooldown
    +:+ " more seconds.".

Definition limit_message (remainingWindow : Z) : string :=
  "Rate limit exceeded. Try again in " +:+ JS.show remainingWindow
    +:+ " seconds.".

(** The cooldown test of [canPerformAction]:
    [config.cooldownMs && limit.lastAttempt + config.cooldownMs > now]. *)
Definition in_cooldown (config : RateLimitConfig) (limit : RateLimit) (now : Z)
  : option Z :=
  match JS.truthy_number (cooldownMs config) with
  | Some cd => if lastAttempt limit + cd >? now
               then Some (lastAttempt limit + cd) else None
  | None => None
  end.

Definition canPerformAction (now : Z) (uid : Z) (act : string) : M Verdict :=
  config <- config_of act ;;
  match config with
  | None => ret (mkVerdict true None None None None)
  | Some config =>
    let key := key_of uid act in
    limit <- attempts_get key ;;
    match limit with
    | None =>
      ret (mkVerdict true (Some (maxAttempts config - 1))
             (Some (now + windowMs config)) None None)
    | Some limit =>
      match in_cooldown config limit now with
      | Some cooldownUntil =>
        let remainingCooldown := JS.ceil_div (cooldownUntil - now) 1000 in
        ret (mkVerdict false None None (Some cooldownUntil)
               (Some (cooldown_message remainingCooldown)))
      | None =>
        if now - windowStart limit >? windowMs config then
          ret (mkVerdict true (Some (maxAttempts config - 1))
                 (Some (now + windowMs config)) None None)
        else if count limit >=? maxAttempts config then
          let resetTime := windowStart limit + windowMs config in
          let remainingWindow := JS.ceil_div (resetTime - now) 1000 in
          ret (mkVerdict false None (Some resetTime) None
                 (Some (limit_message remainingWindow)))
        else
          ret (mkVerdict true (Some (maxAttempts config - count limit - 1))
                 (Some (windowStart limit + windowMs config)) None None)
      end
    end
  end.

Definition recordAttempt (now : Z) (uid : Z) (act : string) : M unit :=
  config <- config_of act ;;
  match config with
  | None => ret tt
  | Some config =>
    let key := key_of uid act in
    existing <- attempts_get key ;;
    let fresh := mkRateLimit uid act 1 now now in
    match existing with
    | None => attempts_set key fresh
    | Some existing =>
      if now - windowStart existing >? windowMs config then
        attempts_set key fresh
      else
        attempts_set key
          (mkRateLimit (userId existing) (action existing)
             (count existing + 1) (windowStart existing) now)
    end
  end.

(** [setRateLimit]: the configuration table is mutable. *)
Definition setRateLimit (act : string) (config : RateLimitConfig) : M unit :=
  fun s => (tt, mkService (attempts s) (<[act := config]> (configs s))).

(** [cleanup]: drop every entry whose window and cooldown have both passed. *)
Definition expired (cfgs : gmap string RateLimitConfig) (now : Z)
  (limit : RateLimit) : bool :=
  match cfgs !! action limit with
  | None => false
  | Some config =>
    let windowExpired := now - windowStart limit >? windowMs config in
    let cooldownExpired :=
      match JS.truthy_number (cooldownMs config) with
      | None => true
      | Some cd => now - lastAttempt limit >? cd
      end in
    windowExpired && cooldownExpired
  end.

Definition cleanup (now : Z) : M unit :=
  fun s =>
    (tt, mkService
           (filter (fun kv => expired (configs s) now kv.2 = false) (attempts s))
           (configs s)).

(** The sequence a caller runs for one gated action: check, then record. *)
Definition check_then_record (tc tr : Z) (uid : Z) (act : string) : M Verdict :=
  v <- canPerformAction tc uid act ;;
  recordAttempt tr uid act ;;;
  ret v.

(** Three gated attempts, a fourth check inside the window of the first
    recorded attempt, and a check once that window has passed. *)
Definition window_scenario (t1 r1 t2 r2 t3 r3 t4 t5 : Z) (uid : Z)
  (act : string) : M (list Verdict) :=
  v1 <- check_then_record t1 r1 uid act ;;
  v2 <- check_then_record t2 r2 uid act ;;
  v3 <- check_then_record t3 r3 uid act ;;
  v4 <- canPerformAction t4 uid act ;;
  v5 <- canPerformAction t5 uid act ;;
  ret [v1; v2; v3; v4; v5].

(** What [getStatus] returns; every field but [hasLimit] is optional. *)
Module Status.
Record t := mk {
  hasLimit : bool;
  currentCount : option Z;
  maxAttempts : option Z;
  windowStart : option Z;
  windowEnd : option Z;
  lastAttempt : option Z
}.
End Status.

Definition getStatus (uid : Z) (act : string) : M Status.t :=
  config <- config_of act ;;
  match config with
  | None => ret (Status.mk false None None None None None)
  | Some config =>
    let key := key_of uid act in
    limit <- attempts_get key ;;
    match limit with
    | None =>
      ret (Status.mk true (Some 0) (Some (maxAttempts config)) None None None)
    | Some limit =>
      ret (Status.mk true (Some (count limit)) (Some (maxAttempts config))
             (Some (windowStart limit))
             (Some (windowStart limit + windowMs config))
             (Some (lastAttempt limit)))
    end
  end.

(** [resetUserLimits]: collect the keys of the entries whose [userId] field
    is the given one, then delete them. *)
Definition resetUserLimits (uid : Z) : M unit :=
  fun s =>
    (tt, mkService (filter (fun kv => userId kv.2 <> uid) (attempts s))
           (configs s)).

End RateLimiter.

(** ** Buffers and their hex encoding *)

Module Hex.

Definition digit (n : N) : ascii :=
  match n with
  | 0 => "0" | 1 => "1" | 2 => "2" | 3 => "3" | 4 => "4" | 5 => "5"
  | 6 => "6" | 7 => "7" | 8 => "8" | 9 => "9" | 10 => "a" | 11 => "b"
  | 12 => "c" | 13 => "d" | 14 => "e" | _ => "f"
  end%N%char.

Definition of_byte (b : byte) : string :=
  String (digit (Byte.to_N b / 16)%N)
    (String (digit (Byte.to_N b mod 16)%N) EmptyString).

(** [buf.toString("hex")] *)
Fixpoint to_hex (bs : list byte) : string :=
  match bs with
  | [] => EmptyString
  | b :: bs => of_byte b +:+ to_hex bs
  end.

Definition value (c : ascii) : option N :=
  let n := N_of_ascii c in
  if (48 <=? n)%N && (n <=? 57)%N then Some (n - 48)%N
  else if (97 <=? n)%N && (n <=? 102)%N then Some (n - 87)%N
  else if (65 <=? n)%N && (n <=? 70)%N then Some (n - 55)%N
  else None.

(** [Buffer.from(s, "hex")]: decoding stops at the first pair that is not
    two hex digits. *)
Fixpoint from_hex (s : string) : list byte :=
  match s with
  | String c1 (String c2 rest) =>
    match value c1, value c2 with
    | Some h, Some l =>
      match Byte.of_N (16 * h + l)%N with
      | Some b => b :: from_hex rest
      | None => []
      end
    | _, _ => []
    end
  | _ => []
  end.

(** [buf.slice(a, b)] and [buf.slice(a)] *)
Definition slice (a b : nat) (buf : list byte) : list byte :=
  take (b - a) (drop a buf).

Definition slice_from (a : nat) (buf : list byte) : list byte := drop a buf.

End Hex.

(** ** walletEnhanced.ts *)

Module WalletEnhanced.
Import Hex.

#[export] Instance byte_eq_dec : EqDecision byte := Byte.byte_eq_dec.

Module GeneratedWallet.
Record t := mk {
  address : string;
  privateKey : string;
  mnemonic : string;
  encryptedPrivateKey : option string
}.
End GeneratedWallet.

Module KdfParams.
Record t := mk {
  algorithm : string;
  N : Z;
  r : Z;
  p : Z;
  keylen : nat
}.
End KdfParams.

Module StoredWallet.
Record t := mk {
  address : string;
  encryptedPrivateKey : string;
  encryptedMnemonic : string;
  salt : string;
  kdfParams : KdfParams.t;
  createdAt : Z;
  userId : Z;
  hasPassphrase : bool
}.
End StoredWallet.

Module UserPassphrase.
Record t := mk {
  userId : Z;
  hashedPassphrase : string;
  salt : string;
  createdAt : Z
}.
End UserPassphrase.

(** What [ethers.Wallet.createRandom()] hands back; the mnemonic may be
    absent ([wallet.mnemonic?.phrase]). *)
Record EthersWallet := mkEthers {
  ethers_address : string;
  ethers_privateKey : string;
  ethers_phrase : option string
}.

(** The packages the service calls and does not define: Node's [crypto]
    ([scrypt] with its default cost, [createHash("sha256")], the
    [aes-256-gcm] cipher and decipher keyed by [createCipher], the random
    source behind [randomBytes]) and [ethers].  A cipher run
    ([setAAD], [update], [final], [getAuthTag]) is [gcm_seal key aad text],
    giving ciphertext and tag; a decipher run ([setAAD], [setAuthTag],
    [update], [final]) is [gcm_open key aad tag ciphertext], [None] when
    [final] throws. *)
Class NodeCrypto := {
  scrypt : string -> list byte -> nat -> list byte;
  sha256 : string -> list byte;
  gcm_seal : list byte -> list byte -> string -> list byte * list byte;
  gcm_open : list byte -> list byte -> list byte -> list byte -> option string;
  entropy : nat -> byte;
  createRandom : list byte -> EthersWallet
}.

(** The cipher opens what it sealed, and its tag has 16 bytes. *)
Class GcmLaws (C : NodeCrypto) : Prop := {
  tag_length : forall key aad text,
    length (snd (gcm_seal key aad text)) = 16%nat;
  open_seal : forall key aad text,
    gcm_open key aad (snd (gcm_seal key aad text))
      (fst (gcm_seal key aad text)) = Some text
}.

(** Idealised authentication: a sealed text opens under no other key and no
    other associated data. *)
Class GcmAuthentic (C : NodeCrypto) : Prop := {
  open_other : forall key aad key' aad' text,
    (key', aad') <> (key, aad) ->
    gcm_open key' aad' (snd (gcm_seal key aad text))
      (fst (gcm_seal key aad text)) = None
}.

(** The two private maps of the class, and how many bytes have been read
    from the random source so far. *)
Record Service := mkService {
  wallets : gmap Z StoredWallet.t;
  passphrases : gmap Z UserPassphrase.t;
  consumed : nat
}.

Definition new_service : Service := mkService ∅ ∅ 0.

(** What an [async] method can reject with. *)
Inductive Error :=
| InvalidPassphrase      (* [new Error("Invalid passphrase")], deriveKey *)
| AuthenticationFailed   (* thrown by the decipher when the tag is wrong *)
| LengthMismatch.        (* [timingSafeEqual] on buffers of unequal length *)

Inductive Outcome (A : Type) :=
| Resolved (a : A)
| Rejected (e : Error).
Arguments Resolved {A} a.
Arguments Rejected {A} e.

(** *** The monad of the service's methods: state and rejection *)

Definition P (A : Type) : Type := Service -> Outcome A * Service.

Definition ret {A} (a : A) : P A := fun s => (Resolved a, s).

Definition throw {A} (e : Error) : P A := fun s => (Rejected e, s).

Definition bind {A B} (m : P A) (k : A -> P B) : P B :=
  fun s =>
    match m s with
    | (Resolved a, s') => k a s'
    | (Rejected e, s') => (Rejected e, s')
    end.

(** [try { return await m } catch (error) { return null }] *)
Definition try_or_null {A} (m : P A) : Service -> option A * Service :=
  fun s =>
    match m s with
    | (Resolved a, s') => (Some a, s')
    | (Rejected _, s') => (None, s')
    end.

Declare Scope vault_scope.
Delimit Scope vault_scope with vault.
Notation "x <- m ;; k" := (bind m (fun x => k))
  (at level 100, m at next level, right associativity) : vault_scope.
Notation "m ;;; k" := (bind m (fun _ => k))
  (at level 100, right associativity) : vault_scope.
Local Open Scope vault_scope.

Definition passphrases_get (uid : Z) : P (option UserPassphrase.t) :=
  fun s => (Resolved (passphrases s !! uid), s).

Definition passphrases_set (uid : Z) (v : UserPassphrase.t) : P unit :=
  fun s =>
    (Resolved tt, mkService (wallets s) (<[uid := v]> (passphrases s))
                    (consumed s)).

Definition wallets_get (uid : Z) : P (option StoredWallet.t) :=
  fun s => (Resolved (wallets s !! uid), s).

Definition wallets_set (uid : Z) (v : StoredWallet.t) : P unit :=
  fun s =>
    (Resolved tt, mkService (<[uid := v]> (wallets s)) (passphrases s)
                    (consumed s)).

(** [crypto.timingSafeEqual(a, b)] *)
Definition timingSafeEqual (a b : list byte) : P bool :=
  if Nat.eqb (length a) (length b) then ret (bool_decide (a = b))
  else throw LengthMismatch.

Section Service.

Context {C : NodeCrypto}.

(** The [n] bytes of the random source from position [from] on. *)
Definition entropy_bytes (from n : nat) : list byte :=
  map entropy (seq from n).

(** [crypto.randomBytes(n)] *)
Definition randomBytes (n : nat) : P (list byte) :=
  fun s =>
    (Resolved (entropy_bytes (consumed s) n),
     mkService (wallets s) (passphrases s) (consumed s + n)).

Definition kdfParams : KdfParams.t :=
  KdfParams.mk "scrypt" 16384 8 1 32.

(** [ethers] draws 16 bytes of entropy for a new wallet. *)
Definition generateWallet : P GeneratedWallet.t :=
  seed <- randomBytes 16 ;;
  let wallet := createRandom seed in
  ret (GeneratedWallet.mk (ethers_address wallet) (ethers_privateKey wallet)
         (default "" (JS.truthy_string (ethers_phrase wallet))) None).

Definition setUserPassphrase (now : Z) (uid : Z) (passphrase : string)
  : P unit :=
  salt <- randomBytes 32 ;;
  let hashedPassphrase := scrypt passphrase salt 64 in
  passphrases_set uid
    (UserPassphrase.mk uid (to_hex hashedPassphrase) (to_hex salt) now).

Definition verifyPassphrase (uid : Z) (passphrase : string) : P bool :=
  stored <- passphrases_get uid ;;
  match stored with
  | None => ret false
  | Some stored =>
    let salt := from_hex (UserPassphrase.salt stored) in
    let hashedInput := scrypt passphrase salt 64 in
    let storedHash := from_hex (UserPassphrase.hashedPassphrase stored) in
    timingSafeEqual hashedInput storedHash
  end.

(** The key of the fallback branch, a function of the user id alone. *)
Definition fallback_key (uid : Z) : list byte :=
  let salt := sha256 ("user_" +:+ JS.show uid +:+ "_salt") in
  scrypt ("user_" +:+ JS.show uid) salt (KdfParams.keylen kdfParams).

Definition deriveKey (uid : Z) (passphrase : option string)
  : P (list byte) :=
  userPassphrase <- passphrases_get uid ;;
  match userPassphrase, JS.truthy_string passphrase with
  | Some userPassphrase, Some passphrase =>
    isValid <- verifyPassphrase uid passphrase ;;
    if negb isValid then throw InvalidPassphrase
    else
      let salt := from_hex (UserPassphrase.salt userPassphrase) in
      ret (scrypt passphrase salt (KdfParams.keylen kdfParams))
  | _, _ => ret (fallback_key uid)
  end.

(** Returns [{ encrypted, salt }] as a pair. *)
Definition encryptPrivateKey (privateKey : string) (uid : Z)
  (passphrase : option string) : P (string * string) :=
  key <- deriveKey uid passphrase ;;
  salt <- randomBytes 16 ;;
  iv <- randomBytes 16 ;;
  let sealed := gcm_seal key salt privateKey in
  let encrypted := to_hex (fst sealed) in
  let authTag := snd sealed in
  let combined := iv ++ authTag ++ from_hex encrypted in
  ret (to_hex combined, to_hex salt).

Definition decryptPrivateKey (encryptedData : string) (salt : string)
  (uid : Z) (passphrase : option string) : P string :=
  key <- deriveKey uid passphrase ;;
  let combined := from_hex encryptedData in
  let iv := slice 0 16 combined in
  let authTag := slice 16 32 combined in
  let encrypted := slice_from 32 combined in
  match gcm_open key (from_hex salt) authTag encrypted with
  | Some decrypted => ret decrypted
  | None => throw AuthenticationFailed
  end.

Definition createWalletForUser (now : Z) (uid : Z)
  (passphrase : option string) : P GeneratedWallet.t :=
  wallet <- generateWallet ;;
  encryptedPrivateKey <-
    encryptPrivateKey (GeneratedWallet.privateKey wallet) uid passphrase ;;
  encryptedMnemonic <-
    encryptPrivateKey (GeneratedWallet.mnemonic wallet) uid passphrase ;;
  let storedWallet :=
    StoredWallet.mk (GeneratedWallet.address wallet)
      (fst encryptedPrivateKey) (fst encryptedMnemonic)
      (snd encryptedPrivateKey) kdfParams now uid
      (bool_decide (is_Some (JS.truthy_string passphrase))) in
  wallets_set uid storedWallet ;;;
  ret (GeneratedWallet.mk (GeneratedWallet.address wallet)
         (GeneratedWallet.privateKey wallet)
         (GeneratedWallet.mnemonic wallet)
         (Some (fst encryptedPrivateKey))).

Definition getUserWallet (uid : Z) (s : Service) : option StoredWallet.t :=
  wallets s !! uid.

Definition getPrivateKey (uid : Z) (passphrase : option string)
  : Service -> option string * Service :=
  fun s =>
    match wallets s !! uid with
    | None => (None, s)
    | Some wallet =>
      try_or_null
        (decryptPrivateKey (StoredWallet.encryptedPrivateKey wallet)
           (StoredWallet.salt wallet) uid passphrase) s
    end.

Definition getMnemonic (uid : Z) (passphrase : option string)
  : Service -> option string * Service :=
  fun s =>
    match wallets s !! uid with
    | None => (None, s)
    | Some wallet =>
      try_or_null
        (decryptPrivateKey (StoredWallet.encryptedMnemonic wallet)
           (StoredWallet.salt wallet) uid passphrase) s
    end.

Definition hasWallet (uid : Z) (s : Service) : bool :=
  bool_decide (is_Some (wallets s !! uid)).

Definition hasPassphrase (uid : Z) (s : Service) : bool :=
  match wallets s !! uid with
  | Some wallet => StoredWallet.hasPassphrase wallet
  | None => false
  end.

Definition removeWallet (uid : Z) (s : Service) : bool * Service :=
  (bool_decide (is_Some (wallets s !! uid)),
   mkService (delete uid (wallets s)) (delete uid (passphrases s))
     (consumed s)).

(** *** Notions used to state the properties *)

(** The outcomes of [verifyPassphrase] and [deriveKey], which read the
    passphrase table only. *)
Definition verified (table : gmap Z UserPassphrase.t) (uid : Z)
  (passphrase : string) : Outcome bool :=
  fst (verifyPassphrase uid passphrase (mkService ∅ table 0)).

Definition derived (table : gmap Z UserPassphrase.t) (uid : Z)
  (passphrase : option string) : Outcome (list byte) :=
  fst (deriveKey uid passphrase (mkService ∅ table 0)).

(** The blob [encryptPrivateKey] builds when the random source stands at
    [from]: salt from the first 16 bytes, IV from the next 16, then
    IV, tag and ciphertext in hex. *)
Definition sealed_blob (key : list byte) (from : nat) (text : string)
  : string :=
  let salt := entropy_bytes from 16 in
  let iv := entropy_bytes (from + 16) 16 in
  to_hex (iv ++ snd (gcm_seal key salt text) ++ fst (gcm_seal key salt text)).

(** The wallet [generateWallet] returns when the random source stands at
    [from]. *)
Definition fresh_wallet (from : nat) : GeneratedWallet.t :=
  let wallet := createRandom (entropy_bytes from 16) in
  GeneratedWallet.mk (ethers_address wallet) (ethers_privateKey wallet)
    (default "" (JS.truthy_string (ethers_phrase wallet))) None.

(** The record [createWalletForUser] stores when the random source stands at
    [from] and [deriveKey] gives [key]: the wallet takes 16 bytes, the
    private-key blob the next 32 (salt, IV), the mnemonic blob 32 more. *)
Definition record_of (key : list byte) (from : nat) (now uid : Z)
  (passphrase : option string) : StoredWallet.t :=
  let wallet := fresh_wallet from in
  StoredWallet.mk (GeneratedWallet.address wallet)
    (sealed_blob key (from + 16) (GeneratedWallet.privateKey wallet))
    (sealed_blob key (from + 16 + 16 + 16) (GeneratedWallet.mnemonic wallet))
    (to_hex (entropy_bytes (from + 16) 16)) kdfParams now uid
    (bool_decide (is_Some (JS.truthy_string passphrase))).

(** What opening a blob under a stored salt comes to, given the outcome of
    the key derivation. *)
Definition opened (blob salt : string) (key : Outcome (list byte))
  : option string :=
  match key with
  | Resolved key =>
    gcm_open key (from_hex salt) (slice 16 32 (from_hex blob))
      (slice_from 32 (from_hex blob))
  | Rejected _ => None
  end.

End Service.

(** [getStats]: one pass over the stored wallets with two counters; [today]
    is the local midnight the method computes from the clock. *)
Module Stats.
Record t := mk {
  totalWallets : Z;
  walletsCreatedToday : Z;
  walletsWithPassphrase : Z
}.
End Stats.

Definition count_wallet (today : Z) (wallet : StoredWallet.t)
  (counters : Z * Z) : Z * Z :=
  (if StoredWallet.createdAt wallet >=? today
   then counters.1 + 1 else counters.1,
   if StoredWallet.hasPassphrase wallet
   then counters.2 + 1 else counters.2).

Definition getStats (today : Z) (s : Service) : Stats.t :=
  let counters :=
    map_fold (fun _ wallet => count_wallet today wallet) (0, 0) (wallets s) in
  Stats.mk (Z.of_nat (size (wallets s))) counters.1 counters.2.

End WalletEnhanced.

(** ** bot.ts: the handlers that call the rate limiter

    Replies to the chat are the results; the wallet lookup of the write
    handler belongs to another service and is an argument. *)

Module Bot.
Import RateLimiter.
Local Open Scope limiter_scope.

Inductive WriteReply :=
| Blocked (message : option string)       (* the limiter's message *)
| NoWallet                                (* "No wallet found" *)
| Submitted (remaining : option Z).       (* attempt recorded, relay called *)

(** [executeWriteWithLimits], up to the call of the relay: the check reads
    the clock at [tc], the record at [tr]. *)
Definition executeWriteWithLimits (tc tr : Z) (uid : Z) (act : string)
  (wallet : bool) : M WriteReply :=
  limitCheck <- canPerformAction tc uid act ;;
  if negb (allowed limitCheck) then ret (Blocked (message limitCheck))
  else if negb wallet then ret NoWallet
  else
    recordAttempt tr uid act ;;;
    ret (Submitted (remainingAttempts limitCheck)).

(** The gate of [/export_wallet] and of the "show keys" button: a check for
    ["export_private_key"], with no attempt recorded by either handler. *)
Definition exportGate (t : Z) (uid : Z) : M bool :=
  limitCheck <- canPerformAction t uid "export_private_key" ;;
  ret (allowed limitCheck).

(** The actions the write commands pass to [executeWriteWithLimits]. *)
Definition writeActions : list string :=
  ["supply"; "borrow"; "repay"; "redeem"; "claim"; "approve"].

(** What reaches the limiter while the bot runs. *)
Inductive Event :=
| WriteCommand (tc tr : Z) (uid : Z) (act : string) (wallet : bool)
| ExportCommand (t : Z) (uid : Z)
| Housekeeping (t : Z).

Inductive Reply :=
| WriteReplied (r : WriteReply)
| ExportReplied (shown : bool)
| Quiet.

Definition handle (e : Event) : M Reply :=
  match e with
  | WriteCommand tc tr uid act wallet =>
    r <- executeWriteWithLimits tc tr uid act wallet ;; ret (WriteReplied r)
  | ExportCommand t uid =>
    shown <- exportGate t uid ;; ret (ExportReplied shown)
  | Housekeeping t => cleanup t ;;; ret Quiet
  end.

Fixpoint run (events : list Event) : M (list Reply) :=
  match events with
  | [] => ret []
  | e :: events =>
    r <- handle e ;;
    rs <- run events ;;
    ret (r :: rs)
  end.

(** A write command of the bot carries one of the six write actions. *)
Definition from_bot (e : Event) : Prop :=
  match e with
  | WriteCommand _ _ _ act _ => act ∈ writeActions
  | _ => True
  end.

End Bot.

(** ** A small executable instance of the external packages

    Not cryptography: an instance on which the service can be run, and which
    satisfies the laws above.  The "cipher" writes key and associated data in
    front of the text and opens only under the same pair. *)

Module Toy.
Import Hex WalletEnhanced.

Definition pad (n : nat) (bs : list byte) : list byte :=
  take n (bs ++ repeat x00 n).

Definition frame (bs : list byte) : list byte :=
  flat_map (fun b => [x01; b]) bs ++ [x00].

Fixpoint unframe (l : list byte) : option (list byte * list byte) :=
  match l with
  | t :: rest =>
    if Byte.eqb t x00 then Some ([], rest)
    else
      match rest with
      | b :: rest' =>
        match unframe rest' with
        | Some (bs, r) => Some (b :: bs, r)
        | None => None
        end
      | [] => None
      end
  | [] => None
  end.

Definition seal (key aad : list byte) (text : string)
  : list byte * list byte :=
  (frame key ++ frame aad ++ list_byte_of_string text, repeat x00 16).

Definition open (key aad tag ct : list byte) : option string :=
  match unframe ct with
  | Some (k, r) =>
    match unframe r with
    | Some (a, body) =>
      if bool_decide (k = key) && bool_decide (a = aad)
         && bool_decide (tag = repeat x00 16)
      then Some (string_of_list_byte body) else None
    | None => None
    end
  | None => None
  end.

Definition crypto : NodeCrypto := {|
  scrypt := fun pass salt n => pad n (list_byte_of_string pass ++ salt);
  sha256 := fun text => pad 32 (list_byte_of_string text);
  gcm_seal := seal;
  gcm_open := open;
  entropy := fun i => default x00 (Byte.of_N (N.of_nat i mod 256));
  createRandom := fun seed =>
    mkEthers ("0x" +:+ to_hex (take 4 seed)) ("0x" +:+ to_hex seed)
      (Some ("seed " +:+ to_hex (rev seed)))
|}.

(** Running a method for its state and for its result. *)
Definition after {A} (m : P A) (s : Service) : Service := snd (m s).
Definition result {A} (m : P A) (s : Service) : Outcome A := fst (m s).

(** The wallet a creation resolved with (an empty one if it rejected). *)
Definition created (o : Outcome GeneratedWallet.t) : GeneratedWallet.t :=
  match o with
  | Resolved w => w
  | Rejected _ => GeneratedWallet.mk "" "" "" None
  end.

(** User 1 creates a wallet without ever setting a passphrase. *)
Definition plain : Service :=
  after (createWalletForUser (C := crypto) 1000 1 None) new_service.

Definition plain_wallet : GeneratedWallet.t :=
  created (result (createWalletForUser (C := crypto) 1000 1 None) new_service).

(** User 1 creates a second wallet. *)
Definition plain_again : Service :=
  after (createWalletForUser (C := crypto) 2000 1 None) plain.

(** User 1 sets a passphrase, then creates a wallet with it. *)
Definition phrase : string := "correct horse battery staple".

Definition with_passphrase : Service :=
  after (setUserPassphrase (C := crypto) 500 1 phrase) new_service.

Definition protected : Service :=
  after (createWalletForUser (C := crypto) 1000 1 (Some phrase))
    with_passphrase.

(** User 1 sets a passphrase, then creates a wallet without giving it. *)
Definition set_but_unused : Service :=
  after (createWalletForUser (C := crypto) 1000 1 None) with_passphrase.

(** User 1 never sets a passphrase but passes one to wallet creation. *)
Definition given_but_unset : Service :=
  after (createWalletForUser (C := crypto) 1000 1 (Some "hunter22"))
    new_service.

(** The wallet created under the passphrase. *)
Definition protected_wallet : GeneratedWallet.t :=
  created
    (result (createWalletForUser (C := crypto) 1000 1 (Some phrase))
       with_passphrase).

(** User 1 sets a passphrase after creating a wallet without one. *)
Definition set_late : Service :=
  after (setUserPassphrase (C := crypto) 3000 1 "hunter22") plain.

(** User 1 replaces the passphrase the wallet was created under. *)
Definition rotated : Service :=
  after (setUserPassphrase (C := crypto) 3000 1 "new phrase") protected.

(** A limiter after one recorded supply of user 42 at time 1000. *)
Definition once : RateLimiter.RateLimiterService :=
  snd (RateLimiter.recordAttempt 1000 42 "supply" RateLimiter.new_service).

(** A limiter with an action limited to three attempts a minute. *)
Definition limited : RateLimiter.RateLimiterService :=
  snd (RateLimiter.setRateLimit "test" (RateLimiter.mkConfig 60000 3 None)
         RateLimiter.new_service).

(** That limiter after three recorded attempts of user 7, the first at
    time 10. *)
Definition thrice : RateLimiter.RateLimiterService :=
  snd (RateLimiter.window_scenario 0 10 20000 20010 40000 40010 59000 60011 7
         "test" limited).

(** A day of the bot: a supply, an export, a cleanup, another export. *)
Definition a_day : list Bot.Event :=
  [Bot.WriteCommand 0 1 42 "supply" true; Bot.ExportCommand 2 42;
   Bot.Housekeeping 3; Bot.ExportCommand 4 42].

End Toy.

(** ** Notions used to state further properties of the limiter *)

Module LimiterNotions.
Import RateLimiter.

Fixpoint colon_free (s : string) : bool :=
  match s with
  | EmptyString => true
  | String c rest => negb (Ascii.eqb c ":") && colon_free rest
  end.

(** Every entry sits under the key made of its own [userId] and [action],
    and has counted at least one attempt. *)
Definition well_keyed (s : RateLimiterService) : Prop :=
  forall key e,
    attempts s !! key = Some e ->
    key = key_of (userId e) (action e) /\ 1 <= count e.


(** No attempt is on record for the export action, for any user. *)
Definition no_export_entry (s : RateLimiterService) : Prop :=
  forall uid, attempts s !! key_of uid "export_private_key" = None.

End LimiterNotions.

(** * Properties of the rate limiter *)

Module RateLimiterProofs.
Import RateLimiter.
Local Open Scope limiter_scope.

Section Limiter.

Variables (uid : Z) (act : string).

Lemma bind_run {A B} (m : M A) (k : A -> M B) (s : RateLimiterService) :
  bind m k s = k (fst (m s)) (snd (m s)).
Proof. unfold bind. destruct (m s); reflexivity. Qed.

(** A check never writes: whatever it answers, the service is returned as it
    was received. *)
Lemma canPerformAction_state (now : Z) (s : RateLimiterService) :
  snd (canPerformAction now uid act s) = s.
Proof.
  unfold canPerformAction, bind, config_of, attempts_get, ret.
  destruct (configs s !! act) as [config|]; [|reflexivity].
  destruct (attempts s !! key_of uid act) as [limit|]; [|reflexivity].
  destruct (in_cooldown config limit now); [reflexivity|].
  destruct (now - windowStart limit >? windowMs config); [reflexivity|].
  destruct (count limit >=? maxAttempts config); reflexivity.
Qed.

(** The answer of a check on an entry, once both lookups are known. *)
Lemma canPerformAction_entry (now : Z) (s : RateLimiterService)
  (config : RateLimitConfig) (limit : RateLimit) :
  configs s !! act = Some config ->
  attempts s !! key_of uid act = Some limit ->
  fst (canPerformAction now uid act s)
  = match in_cooldown config limit now with
    | Some cu =>
      mkVerdict false None None (Some cu)
        (Some (cooldown_message (JS.ceil_div (cu - now) 1000)))
    | None =>
      if now - windowStart limit >? windowMs config then
        mkVerdict true (Some (maxAttempts config - 1))
          (Some (now + windowMs config)) None None
      else if count limit >=? maxAttempts config then
        mkVerdict false None (Some (windowStart limit + windowMs config)) None
          (Some (limit_message
                   (JS.ceil_div (windowStart limit + windowMs config - now)
                      1000)))
      else
        mkVerdict true (Some (maxAttempts config - count limit - 1))
          (Some (windowStart limit + windowMs config)) None None
    end.
Proof.
  intros Hc Hl.
  unfold canPerformAction, bind, config_of, attempts_get, ret.
  rewrite Hc, Hl.
  destruct (in_cooldown config limit now); [reflexivity|].
  destruct (now - windowStart limit >? windowMs config); [reflexivity|].
  destruct (count limit >=? maxAttempts config); reflexivity.
Qed.

Lemma canPerformAction_fresh (now : Z) (s : RateLimiterService)
  (config : RateLimitConfig) :
  configs s !! act = Some config ->
  attempts s !! key_of uid act = None ->
  fst (canPerformAction now uid act s)
  = mkVerdict true (Some (maxAttempts config - 1))
      (Some (now + windowMs config)) None None.
Proof.
  intros Hc Hl.
  unfold canPerformAction, bind, config_of, attempts_get, ret.
  rewrite Hc, Hl. reflexivity.
Qed.

Lemma recordAttempt_state (now : Z) (s : RateLimiterService)
  (config : RateLimitConfig) :
  configs s !! act = Some config ->
  recordAttempt now uid act s
  = (tt, mkService
           (<[key_of uid act :=
                match attempts s !! key_of uid act with
                | Some e =>
                  if now - windowStart e >? windowMs config
                  then mkRateLimit uid act 1 now now
                  else mkRateLimit (userId e) (action e) (count e + 1)
                         (windowStart e) now
                | None => mkRateLimit uid act 1 now now
                end]> (attempts s))
           (configs s)).
Proof.
  intros Hc.
  unfold recordAttempt, bind, config_of, attempts_get, attempts_set, ret.
  rewrite Hc.
  destruct (attempts s !! key_of uid act) as [e|]; [|reflexivity].
  destruct (now - windowStart e >? windowMs config); reflexivity.
Qed.

Lemma recordAttempt_configs (now : Z) (s : RateLimiterService) :
  configs (snd (recordAttempt now uid act s)) = configs s.
Proof.
  unfold recordAttempt, bind, config_of, attempts_get, attempts_set, ret.
  destruct (configs s !! act) as [config|]; [|reflexivity].
  destruct (attempts s !! key_of uid act) as [e|]; [|reflexivity].
  destruct (now - windowStart e >? windowMs config); reflexivity.
Qed.

(** After a recorded attempt the entry exists and carries the time of the
    attempt, whichever branch wrote it. *)
Lemma recordAttempt_lastAttempt (now : Z) (s : RateLimiterService)
  (config : RateLimitConfig) :
  configs s !! act = Some config ->
  exists e, attempts (snd (recordAttempt now uid act s)) !! key_of uid act
            = Some e /\ lastAttempt e = now.
Proof.
  intros Hc. rewrite (recordAttempt_state now s config Hc). simpl.
  rewrite lookup_insert_eq.
  destruct (attempts s !! key_of uid act) as [e|]; [|eauto].
  destruct (now - windowStart e >? windowMs config); eauto.
Qed.

(** C9. [canPerformAction] is a pure read: for every state of the limiter,
    every clock value, user id and action, the service after the call is the
    service before it, so the table of entries is unchanged (no entry is
    created, deleted or modified) and so is the configuration table. *)
Theorem check_is_pure_read (now : Z) (s : RateLimiterService) :
  snd (canPerformAction now uid act s) = s
  /\ attempts (snd (canPerformAction now uid act s)) = attempts s.
Proof.
  rewrite canPerformAction_state. split; reflexivity.
Qed.

(** C8. With a configured cooldown of 30000 ms, after an attempt is recorded
    at time [r], every check made at a time [now] before [r + 30000] is
    denied with the cooldown answer ([cooldownUntil] set, no [resetTime]),
    whatever the entry held before and however many attempts the window still
    has room for. *)
Theorem cooldown_blocks_after_record (r now : Z) (s : RateLimiterService)
  (config : RateLimitConfig) :
  configs s !! act = Some config ->
  cooldownMs config = Some 30000 ->
  now < r + 30000 ->
  fst (canPerformAction now uid act (snd (recordAttempt r uid act s)))
  = mkVerdict false None None (Some (r + 30000))
      (Some (cooldown_message (JS.ceil_div (r + 30000 - now) 1000))).
Proof.
  intros Hc Hcd Hnow.
  destruct (recordAttempt_lastAttempt r s config Hc) as (e & He & Hlast).
  rewrite (canPerformAction_entry now _ config e);
    [| rewrite recordAttempt_configs; exact Hc | exact He].
  unfold in_cooldown. rewrite Hcd, Hlast. simpl.
  destruct (r + 30000 >? now) eqn:Hgt; [reflexivity | lia].
Qed.

(** C7. With [{windowMs: 60000, maxAttempts: 3}] and no cooldown, starting
    from no entry: three checks, each followed by a recorded attempt no later
    than 60000 ms after the first recorded attempt, are allowed; a fourth
    check inside that window is denied with the rate-limit answer
    ([resetTime] at the end of the window, no [cooldownUntil]); a check made
    more than 60000 ms after the first recorded attempt is allowed again. *)
Theorem window_of_three (t1 r1 t2 r2 t3 r3 t4 t5 : Z)
  (s : RateLimiterService) :
  configs s !! act = Some (mkConfig 60000 3 None) ->
  attempts s !! key_of uid act = None ->
  r2 - r1 <= 60000 -> r3 - r1 <= 60000 -> t4 - r1 <= 60000 ->
  t5 - r1 > 60000 ->
  exists v1 v2 v3 v5,
    fst (window_scenario t1 r1 t2 r2 t3 r3 t4 t5 uid act s)
    = [v1; v2; v3;
       mkVerdict false None (Some (r1 + 60000)) None
         (Some (limit_message (JS.ceil_div (r1 + 60000 - t4) 1000)));
       v5]
    /\ allowed v1 = true /\ allowed v2 = true /\ allowed v3 = true
    /\ allowed v5 = true.
Proof.
  intros Hc Ha H2 H3 H4 H5.
  set (cfg := mkConfig 60000 3 None) in *.
  (* the three states written by the recorded attempts *)
  set (s1 := snd (recordAttempt r1 uid act s)).
  set (s2 := snd (recordAttempt r2 uid act s1)).
  set (s3 := snd (recordAttempt r3 uid act s2)).
  assert (Hc1 : configs s1 !! act = Some cfg)
    by (unfold s1; rewrite recordAttempt_configs; exact Hc).
  assert (Hc2 : configs s2 !! act = Some cfg)
    by (unfold s2; rewrite recordAttempt_configs; exact Hc1).
  assert (Hc3 : configs s3 !! act = Some cfg)
    by (unfold s3; rewrite recordAttempt_configs; exact Hc2).
  assert (Ha1 : attempts s1 !! key_of uid act
                 = Some (mkRateLimit uid act 1 r1 r1)).
  { unfold s1. rewrite (recordAttempt_state r1 s cfg Hc). simpl.
    rewrite lookup_insert_eq. rewrite Ha. reflexivity. }
  assert (Ha2 : attempts s2 !! key_of uid act
                 = Some (mkRateLimit uid act 2 r1 r2)).
  { unfold s2. rewrite (recordAttempt_state r2 s1 cfg Hc1). simpl.
    rewrite lookup_insert_eq. rewrite Ha1. simpl.
    destruct (r2 - r1 >? 60000) eqn:E; [lia | reflexivity]. }
  assert (Ha3 : attempts s3 !! key_of uid act
                 = Some (mkRateLimit uid act 3 r1 r3)).
  { unfold s3. rewrite (recordAttempt_state r3 s2 cfg Hc2). simpl.
    rewrite lookup_insert_eq. rewrite Ha2. simpl.
    destruct (r3 - r1 >? 60000) eqn:E; [lia | reflexivity]. }
  exists (fst (canPerformAction t1 uid act s)),
         (fst (canPerformAction t2 uid act s1)),
         (fst (canPerformAction t3 uid act s2)),
         (fst (canPerformAction t5 uid act s3)).
  split.
  - unfold window_scenario, check_then_record.
    repeat (rewrite !bind_run; rewrite ?canPerformAction_state; simpl).
    fold s1. fold s2. fold s3.
    rewrite (canPerformAction_entry t4 s3 cfg _ Hc3 Ha3).
    unfold in_cooldown; simpl.
    destruct (t4 - r1 >? 60000) eqn:E; [lia | reflexivity].
  - rewrite (canPerformAction_fresh t1 s cfg Hc Ha).
    rewrite (canPerformAction_entry t2 s1 cfg _ Hc1 Ha1).
    rewrite (canPerformAction_entry t3 s2 cfg _ Hc2 Ha2).
    rewrite (canPerformAction_entry t5 s3 cfg _ Hc3 Ha3).
    unfold in_cooldown; simpl.
    destruct (t2 - r1 >? 60000), (t3 - r1 >? 60000); simpl;
      (destruct (t5 - r1 >? 60000) eqn:E; [auto | lia]).
Qed.

End Limiter.

(** The three limiter results at concrete inputs. *)

Lemma window_of_three_witness :
  exists v1 v2 v3 v5,
    fst (window_scenario 0 10 20000 20010 40000 40010 59000 60011 7 "test"
           Toy.limited)
    = [v1; v2; v3;
       mkVerdict false None (Some 60010) None
         (Some "Rate limit exceeded. Try again in 2 seconds.");
       v5]
    /\ allowed v1 = true /\ allowed v2 = true /\ allowed v3 = true
    /\ allowed v5 = true.
Proof.
  apply (window_of_three 7 "test" 0 10 20000 20010 40000 40010 59000 60011
           Toy.limited); [reflexivity | reflexivity | lia | lia | lia | lia].
Defined.

Lemma cooldown_blocks_after_record_witness :
  fst (canPerformAction 20000 42 "supply"
         (snd (recordAttempt 1000 42 "supply" new_service)))
  = mkVerdict false None None (Some 31000)
      (Some "Action blocked. Cooldown active for 11 more seconds.").
Proof.
  apply (cooldown_blocks_after_record 42 "supply" 1000 20000 new_service
           (mkConfig 60000 3 (Some 30000))); [reflexivity | reflexivity | lia].
Defined.

End RateLimiterProofs.

(** * Properties of the hex encoding *)

Module HexProofs.
Import Hex.

Lemma from_hex_of_byte (b : byte) (rest : string) :
  from_hex (of_byte b +:+ rest) = b :: from_hex rest.
Proof. destruct b; reflexivity. Qed.

(** [Buffer.from(buf.toString("hex"), "hex")] is [buf]. *)
Lemma from_hex_to_hex (bs : list byte) : from_hex (to_hex bs) = bs.
Proof.
  induction bs as [|b bs IH]; [reflexivity|].
  change (to_hex (b :: bs)) with (of_byte b +:+ to_hex bs).
  rewrite from_hex_of_byte, IH. reflexivity.
Qed.

(** A buffer laid out as 16 bytes, 16 bytes, rest is cut back into its three
    parts by the slices of [decryptPrivateKey]. *)
Lemma slices_of_combined (iv tag ct : list byte) :
  length iv = 16%nat -> length tag = 16%nat ->
  slice 16 32 (iv ++ tag ++ ct) = tag /\ slice_from 32 (iv ++ tag ++ ct) = ct.
Proof.
  intros Hiv Htag. unfold slice, slice_from. split.
  - rewrite drop_app_length' by (symmetry; exact Hiv).
    change (32 - 16)%nat with 16%nat.
    rewrite take_app_length' by (symmetry; exact Htag). reflexivity.
  - rewrite app_assoc. apply drop_app_length'.
    rewrite length_app, Hiv, Htag. reflexivity.
Qed.

End HexProofs.

(** * Properties of the wallet service *)

Module WalletProofs.
Import Hex HexProofs WalletEnhanced.
Local Open Scope vault_scope.

#[local] Arguments entropy_bytes : simpl never.
#[local] Arguments to_hex : simpl never.
#[local] Arguments from_hex : simpl never.

Section Vault.

Context {C : NodeCrypto}.

(** *** Reading the passphrase table *)

Lemma verifyPassphrase_reads (uid : Z) (pass : string) (s : Service) :
  verifyPassphrase uid pass s = (verified (passphrases s) uid pass, s).
Proof.
  unfold verified, verifyPassphrase, bind, passphrases_get, timingSafeEqual,
    ret, throw; simpl.
  destruct (passphrases s !! uid) as [stored|]; [|reflexivity].
  destruct (Nat.eqb _ _); reflexivity.
Qed.

Lemma deriveKey_reads (uid : Z) (pass : option string) (s : Service) :
  deriveKey uid pass s = (derived (passphrases s) uid pass, s).
Proof.
  unfold derived, deriveKey, bind, passphrases_get; simpl.
  destruct (passphrases s !! uid) as [stored|] eqn:Hs;
    [|destruct (JS.truthy_string pass); reflexivity].
  destruct (JS.truthy_string pass) as [p|]; [|reflexivity].
  rewrite !verifyPassphrase_reads. simpl.
  destruct (verified (passphrases s) uid p) as [[|]|e]; reflexivity.
Qed.

Lemma derived_fallback (table : gmap Z UserPassphrase.t) (uid : Z)
  (pass : option string) :
  table !! uid = None \/ JS.truthy_string pass = None ->
  derived table uid pass = Resolved (fallback_key uid).
Proof.
  unfold derived, deriveKey, bind, passphrases_get; simpl.
  intros [-> | ->]; [destruct (JS.truthy_string pass); reflexivity|].
  destruct (table !! uid); reflexivity.
Qed.

Lemma derived_passphrase (table : gmap Z UserPassphrase.t) (uid : Z)
  (pass : option string) (stored : UserPassphrase.t) (p : string) :
  table !! uid = Some stored ->
  JS.truthy_string pass = Some p ->
  derived table uid pass
  = match verified table uid p with
    | Resolved true =>
      Resolved (scrypt p (from_hex (UserPassphrase.salt stored))
                  (KdfParams.keylen kdfParams))
    | Resolved false => Rejected InvalidPassphrase
    | Rejected e => Rejected e
    end.
Proof.
  intros Ht Hp.
  unfold derived, deriveKey, bind, passphrases_get; simpl.
  rewrite Ht, Hp, verifyPassphrase_reads. simpl.
  destruct (verified table uid p) as [[|]|e]; reflexivity.
Qed.

(** *** Sealing and opening *)

Lemma length_entropy_bytes (from n : nat) : length (entropy_bytes from n) = n.
Proof. unfold entropy_bytes. rewrite length_map, length_seq. reflexivity. Qed.

Lemma encryptPrivateKey_run (text : string) (uid : Z) (pass : option string)
  (s : Service) :
  encryptPrivateKey text uid pass s
  = match derived (passphrases s) uid pass with
    | Resolved key =>
      (Resolved (sealed_blob key (consumed s) text,
                 to_hex (entropy_bytes (consumed s) 16)),
       mkService (wallets s) (passphrases s) (consumed s + 16 + 16))
    | Rejected e => (Rejected e, s)
    end.
Proof.
  unfold encryptPrivateKey, bind. rewrite deriveKey_reads.
  destruct (derived (passphrases s) uid pass) as [key|e]; [|reflexivity].
  unfold randomBytes, ret, sealed_blob; simpl.
  rewrite from_hex_to_hex. reflexivity.
Qed.

(** Opening a blob built by [encryptPrivateKey] hands the decipher the tag
    and ciphertext the cipher produced. *)
Lemma decryptPrivateKey_sealed {L : GcmLaws C} (key : list byte) (from : nat)
  (text salt : string) (uid : Z) (pass : option string) (s : Service) :
  decryptPrivateKey (sealed_blob key from text) salt uid pass s
  = match derived (passphrases s) uid pass with
    | Resolved key' =>
      let sealed := gcm_seal key (entropy_bytes from 16) text in
      (match gcm_open key' (from_hex salt) (snd sealed) (fst sealed) with
       | Some decrypted => Resolved decrypted
       | None => Rejected AuthenticationFailed
       end, s)
    | Rejected e => (Rejected e, s)
    end.
Proof.
  unfold decryptPrivateKey, bind. rewrite deriveKey_reads.
  destruct (derived (passphrases s) uid pass) as [key'|e]; [|reflexivity].
  unfold sealed_blob. rewrite from_hex_to_hex.
  destruct (slices_of_combined (entropy_bytes (from + 16) 16)
              (snd (gcm_seal key (entropy_bytes from 16) text))
              (fst (gcm_seal key (entropy_bytes from 16) text)))
    as [-> ->]; [apply length_entropy_bytes | apply tag_length |].
  cbv zeta.
  destruct (gcm_open _ _ _ _); reflexivity.
Qed.

(** *** Creating a wallet *)

Lemma createWalletForUser_run (now uid : Z) (pass : option string)
  (s : Service) :
  createWalletForUser now uid pass s
  = match derived (passphrases s) uid pass with
    | Resolved key =>
      let wallet := fresh_wallet (consumed s) in
      let record := record_of key (consumed s) now uid pass in
      (Resolved
         (GeneratedWallet.mk (GeneratedWallet.address wallet)
            (GeneratedWallet.privateKey wallet)
            (GeneratedWallet.mnemonic wallet)
            (Some (StoredWallet.encryptedPrivateKey record))),
       mkService (<[uid := record]> (wallets s)) (passphrases s)
         (consumed s + 16 + 16 + 16 + 16 + 16))
    | Rejected e =>
      (Rejected e, mkService (wallets s) (passphrases s) (consumed s + 16))
    end.
Proof.
  unfold createWalletForUser, bind at 1.
  unfold generateWallet, bind at 1, randomBytes at 1, ret at 1.
  fold (fresh_wallet (consumed s)).
  unfold bind at 1. rewrite encryptPrivateKey_run. cbn [passphrases consumed].
  destruct (derived (passphrases s) uid pass) as [key|e] eqn:Hd;
    [|reflexivity].
  unfold bind at 1. rewrite encryptPrivateKey_run. cbn [passphrases consumed].
  rewrite Hd. reflexivity.
Qed.

(** *** Reading a stored record back *)

Lemma truthy_string_nonempty (p : string) :
  p <> "" -> JS.truthy_string (Some p) = Some p.
Proof.
  intros Hp. unfold JS.truthy_string.
  destruct (String.eqb p "") eqn:E; [|reflexivity].
  apply String.eqb_eq in E. contradiction.
Qed.

Lemma getPrivateKey_record {L : GcmLaws C} (key : list byte) (from : nat)
  (now uid : Z) (pass0 pass : option string) (s : Service) :
  wallets s !! uid = Some (record_of key from now uid pass0) ->
  getPrivateKey uid pass s
  = (match derived (passphrases s) uid pass with
     | Resolved key' =>
       let salt := entropy_bytes (from + 16) 16 in
       let sealed :=
         gcm_seal key salt (GeneratedWallet.privateKey (fresh_wallet from)) in
       gcm_open key' salt (snd sealed) (fst sealed)
     | Rejected _ => None
     end, s).
Proof.
  intros Hw. unfold getPrivateKey, try_or_null. rewrite Hw.
  cbn [record_of StoredWallet.encryptedPrivateKey StoredWallet.salt].
  rewrite decryptPrivateKey_sealed, from_hex_to_hex.
  destruct (derived (passphrases s) uid pass) as [key'|e]; [|reflexivity].
  cbv zeta. destruct (gcm_open _ _ _ _); reflexivity.
Qed.

(** The mnemonic blob is opened with the stored salt, which is the salt of
    the private-key blob, and was sealed with a salt of its own. *)
Lemma getMnemonic_record {L : GcmLaws C} (key : list byte) (from : nat)
  (now uid : Z) (pass0 pass : option string) (s : Service) :
  wallets s !! uid = Some (record_of key from now uid pass0) ->
  getMnemonic uid pass s
  = (match derived (passphrases s) uid pass with
     | Resolved key' =>
       let stored_salt := entropy_bytes (from + 16) 16 in
       let sealing_salt := entropy_bytes (from + 16 + 16 + 16) 16 in
       let sealed :=
         gcm_seal key sealing_salt
           (GeneratedWallet.mnemonic (fresh_wallet from)) in
       gcm_open key' stored_salt (snd sealed) (fst sealed)
     | Rejected _ => None
     end, s).
Proof.
  intros Hw. unfold getMnemonic, try_or_null. rewrite Hw.
  cbn [record_of StoredWallet.encryptedMnemonic StoredWallet.salt].
  rewrite decryptPrivateKey_sealed, from_hex_to_hex.
  destruct (derived (passphrases s) uid pass) as [key'|e]; [|reflexivity].
  cbv zeta. destruct (gcm_open _ _ _ _); reflexivity.
Qed.


(** *** The passphrase store *)

Lemma verified_after_set (now uid : Z) (p : string) (s : Service) :
  verified (passphrases (snd (setUserPassphrase now uid p s))) uid p
  = Resolved true.
Proof.
  unfold verified, verifyPassphrase, bind, passphrases_get, timingSafeEqual;
    simpl.
  rewrite lookup_insert_eq. simpl.
  rewrite !from_hex_to_hex, Nat.eqb_refl.
  unfold ret. rewrite bool_decide_eq_true_2; reflexivity.
Qed.

(** C10. [verifyPassphrase] fails closed: with no stored passphrase for the
    user it resolves to [false] for every candidate; and right after
    [setUserPassphrase uid p] it resolves to [true] for the same [p],
    re-deriving the hash from the stored salt.  Neither call changes the
    state it is given. *)
Theorem verifyPassphrase_fails_closed (now uid : Z) (p : string)
  (s : Service) :
  (passphrases s !! uid = None ->
   forall candidate,
     verifyPassphrase uid candidate s = (Resolved false, s))
  /\ verifyPassphrase uid p (snd (setUserPassphrase now uid p s))
     = (Resolved true, snd (setUserPassphrase now uid p s)).
Proof.
  split.
  - intros Hnone candidate.
    unfold verifyPassphrase, bind, passphrases_get. rewrite Hnone.
    reflexivity.
  - rewrite verifyPassphrase_reads, verified_after_set. reflexivity.
Qed.

(** *** The vault *)

(** C6. Creating a wallet with no passphrase (absent or empty) succeeds,
    stores a record whose [hasPassphrase] flag is false, and a later
    [getPrivateKey] with no passphrase returns the private key that the
    creation returned, leaving the state unchanged. *)
Theorem no_passphrase_round_trip {L : GcmLaws C} (now uid : Z)
  (pass pass' : option string) (s : Service) :
  JS.truthy_string pass = None ->
  JS.truthy_string pass' = None ->
  exists w s',
    createWalletForUser now uid pass s = (Resolved w, s')
    /\ hasPassphrase uid s' = false
    /\ getPrivateKey uid pass' s' = (Some (GeneratedWallet.privateKey w), s').
Proof.
  intros Hp Hp'. rewrite createWalletForUser_run.
  rewrite (derived_fallback _ uid pass) by (right; exact Hp).
  eexists _, _. split; [reflexivity|]. split.
  - unfold hasPassphrase. cbn [wallets]. rewrite lookup_insert_eq.
    cbn [record_of StoredWallet.hasPassphrase]. rewrite Hp. reflexivity.
  - erewrite getPrivateKey_record by (cbn [wallets]; apply lookup_insert_eq).
    cbn [passphrases].
    rewrite (derived_fallback _ uid pass') by (right; exact Hp').
    cbv zeta. rewrite open_seal. reflexivity.
Qed.

(** C5. When a passphrase is passed to [createWalletForUser] for a user
    with no stored passphrase, the call succeeds and the record it stores is
    the one sealed under the fallback key of the user id, not under the
    passphrase; a later [getPrivateKey] without a passphrase returns the
    private key. *)
Theorem unset_passphrase_falls_back {L : GcmLaws C} (now uid : Z)
  (p : string) (pass' : option string) (s : Service) :
  passphrases s !! uid = None ->
  JS.truthy_string pass' = None ->
  exists w s',
    createWalletForUser now uid (Some p) s = (Resolved w, s')
    /\ wallets s' !! uid
       = Some (record_of (fallback_key uid) (consumed s) now uid (Some p))
    /\ passphrases s' !! uid = None
    /\ getPrivateKey uid pass' s' = (Some (GeneratedWallet.privateKey w), s').
Proof.
  intros Hnone Hp'. rewrite createWalletForUser_run.
  rewrite (derived_fallback _ uid (Some p)) by (left; exact Hnone).
  eexists _, _. split; [reflexivity|].
  split; [cbn [wallets]; apply lookup_insert_eq|].
  split; [exact Hnone|].
  erewrite getPrivateKey_record by (cbn [wallets]; apply lookup_insert_eq).
  cbn [passphrases].
  rewrite (derived_fallback _ uid pass') by (right; exact Hp').
  cbv zeta. rewrite open_seal. reflexivity.
Qed.

(** C3, as the code has it. The mnemonic blob is sealed with a salt of its
    own, which is then dropped: the record keeps the salt of the private-key
    blob only.  So whenever the random source gives two different salts,
    [getMnemonic] returns [null] for every passphrase argument, also the one
    with which [getPrivateKey] returns the private key. *)
Theorem mnemonic_sealed_under_dropped_salt {L : GcmLaws C} {Au : GcmAuthentic C}
  (now uid : Z) (pass pass' : option string) (s : Service)
  (w : GeneratedWallet.t) (s' : Service) :
  createWalletForUser now uid pass s = (Resolved w, s') ->
  entropy_bytes (consumed s + 16) 16
    <> entropy_bytes (consumed s + 16 + 16 + 16) 16 ->
  getMnemonic uid pass' s' = (None, s').
Proof.
  rewrite createWalletForUser_run.
  destruct (derived (passphrases s) uid pass) as [key|e] eqn:Hd;
    [|discriminate].
  cbv zeta. intros [= <- <-] Hsalt.
  erewrite getMnemonic_record by (cbn [wallets]; apply lookup_insert_eq).
  destruct (derived _ uid pass') as [key'|e']; [|reflexivity].
  cbv zeta. rewrite open_other; [reflexivity|].
  intros Heq. apply Hsalt. exact (f_equal snd Heq).
Qed.

(** C1, as the code has it. [createWalletForUser] does not look at the
    wallet table before writing it and has no failure for an existing
    wallet.  For a user who already has a record: when key derivation
    succeeds the call resolves and the record under the user id is replaced
    by the record of the newly generated wallet; when key derivation rejects
    (a passphrase that fails verification) the call rejects with that error
    and the wallet table is as before. *)
Theorem second_creation_overwrites (now uid : Z) (pass : option string)
  (s : Service) (old : StoredWallet.t) :
  wallets s !! uid = Some old ->
  match createWalletForUser now uid pass s with
  | (Resolved w, s') =>
    exists key,
      derived (passphrases s) uid pass = Resolved key
      /\ wallets s' !! uid = Some (record_of key (consumed s) now uid pass)
      /\ GeneratedWallet.address w
         = StoredWallet.address (record_of key (consumed s) now uid pass)
      /\ GeneratedWallet.encryptedPrivateKey w
         = Some (StoredWallet.encryptedPrivateKey
                   (record_of key (consumed s) now uid pass))
      /\ forall other, other <> uid -> wallets s' !! other = wallets s !! other
  | (Rejected e, s') =>
    derived (passphrases s) uid pass = Rejected e
    /\ wallets s' = wallets s
  end.
Proof.
  intros _. rewrite createWalletForUser_run.
  destruct (derived (passphrases s) uid pass) as [key|e]; cbv zeta.
  - exists key. cbn [wallets]. rewrite lookup_insert_eq.
    repeat split; try reflexivity.
    intros other Hne. apply lookup_insert_ne. congruence.
  - split; reflexivity.
Qed.

(** C4. The stored flag is meant to tell whether the user has set a
    passphrase, and the code does not compute it so: the flag is the
    truthiness of the passphrase argument, and the passphrase table is not
    consulted.  Both ways of disagreeing occur, for every state.  A user
    who has a stored passphrase and creates a wallet without passing one
    gets a wallet whose flag is false; a user with no stored passphrase who
    passes a non-empty one gets a wallet whose flag is true.  In both cases
    the creation succeeds and leaves the passphrase table as it was. *)
Theorem flag_ignores_passphrase_record (now uid : Z) (pass : option string)
  (s : Service) :
  (is_Some (passphrases s !! uid) ->
   JS.truthy_string pass = None ->
   exists w s',
     createWalletForUser now uid pass s = (Resolved w, s')
     /\ is_Some (passphrases s' !! uid)
     /\ hasPassphrase uid s' = false)
  /\ (passphrases s !! uid = None ->
      is_Some (JS.truthy_string pass) ->
      exists w s',
        createWalletForUser now uid pass s = (Resolved w, s')
        /\ passphrases s' !! uid = None
        /\ hasPassphrase uid s' = true).
Proof.
  split.
  - intros Hrecord Hpass. rewrite createWalletForUser_run.
    rewrite (derived_fallback _ uid pass) by (right; exact Hpass).
    eexists _, _. split; [reflexivity|]. split; [exact Hrecord|].
    unfold hasPassphrase. cbn [wallets]. rewrite lookup_insert_eq.
    cbn [record_of StoredWallet.hasPassphrase]. rewrite Hpass. reflexivity.
  - intros Hnone Hpass. rewrite createWalletForUser_run.
    rewrite (derived_fallback _ uid pass) by (left; exact Hnone).
    eexists _, _. split; [reflexivity|]. split; [exact Hnone|].
    unfold hasPassphrase. cbn [wallets]. rewrite lookup_insert_eq.
    cbn [record_of StoredWallet.hasPassphrase].
    apply bool_decide_eq_true_2. exact Hpass.
Qed.


End Vault.

End WalletProofs.

(** * The executable instance: its laws, and the service run on it *)

Module ToyProofs.
Import Hex WalletEnhanced Toy.

Lemma unframe_frame (bs rest : list byte) :
  unframe (frame bs ++ rest) = Some (bs, rest).
Proof.
  induction bs as [|b bs IH]; [reflexivity|].
  change (frame (b :: bs) ++ rest) with (x01 :: b :: (frame bs ++ rest)).
  cbn [unframe]. rewrite IH. reflexivity.
Qed.

Lemma open_sealed (key aad key' aad' : list byte) (text : string) :
  open key' aad' (snd (seal key aad text)) (fst (seal key aad text))
  = if bool_decide (key = key') && bool_decide (aad = aad')
    then Some text else None.
Proof.
  unfold open, seal. cbn [fst snd].
  rewrite unframe_frame, unframe_frame, string_of_list_byte_of_string.
  rewrite (bool_decide_eq_true_2 (repeat x00 16 = repeat x00 16) eq_refl).
  rewrite andb_true_r. reflexivity.
Qed.

Lemma crypto_gcm_laws : GcmLaws crypto.
Proof.
  split; intros key aad text.
  - reflexivity.
  - cbn [gcm_open gcm_seal crypto]. rewrite open_sealed.
    rewrite !bool_decide_eq_true_2; reflexivity.
Qed.

Lemma crypto_gcm_authentic : GcmAuthentic crypto.
Proof.
  split; intros key aad key' aad' text Hne.
  cbn [gcm_open gcm_seal crypto]. rewrite open_sealed.
  destruct (bool_decide (key = key')) eqn:Hk; [|reflexivity].
  destruct (bool_decide (aad = aad')) eqn:Ha; [|reflexivity].
  apply bool_decide_eq_true_1 in Hk, Ha. subst. contradiction.
Qed.

End ToyProofs.

(** * The service run on the executable instance *)

Module Scenarios.
Import Hex WalletEnhanced Toy WalletProofs ToyProofs.

Lemma verifyPassphrase_fails_closed_witness :
  verifyPassphrase (C := crypto) 1 "guess" new_service
  = (Resolved false, new_service)
  /\ verifyPassphrase (C := crypto) 1 phrase with_passphrase
     = (Resolved true, with_passphrase).
Proof.
  destruct (verifyPassphrase_fails_closed (C := crypto) 500 1 phrase
              new_service) as [Hnone Hset].
  split; [apply Hnone; reflexivity | exact Hset].
Defined.

Lemma no_passphrase_round_trip_witness :
  exists w s',
    createWalletForUser (C := crypto) 1000 1 None new_service
    = (Resolved w, s')
    /\ hasPassphrase 1 s' = false
    /\ getPrivateKey (C := crypto) 1 None s'
       = (Some (GeneratedWallet.privateKey w), s').
Proof.
  apply (no_passphrase_round_trip (C := crypto) (L := crypto_gcm_laws)
           1000 1 None None new_service); reflexivity.
Defined.

Lemma unset_passphrase_falls_back_witness :
  exists w s',
    createWalletForUser (C := crypto) 1000 1 (Some "hunter22") new_service
    = (Resolved w, s')
    /\ wallets s' !! 1
       = Some (record_of (C := crypto) (fallback_key (C := crypto) 1) 0 1000 1
                 (Some "hunter22"))
    /\ passphrases s' !! 1 = None
    /\ getPrivateKey (C := crypto) 1 None s'
       = (Some (GeneratedWallet.privateKey w), s').
Proof.
  apply (unset_passphrase_falls_back (C := crypto)
           (L := crypto_gcm_laws) 1000 1 "hunter22" None new_service);
    reflexivity.
Defined.

Lemma mnemonic_sealed_under_dropped_salt_witness :
  getMnemonic (C := crypto) 1 None plain = (None, plain).
Proof.
  apply (mnemonic_sealed_under_dropped_salt (C := crypto)
           (L := crypto_gcm_laws) (Au := crypto_gcm_authentic)
           1000 1 None None new_service plain_wallet plain).
  - vm_compute. reflexivity.
  - vm_compute. discriminate.
Defined.

(** C3 at a concrete input: the user creates a wallet with no passphrase;
    the private key comes back, the mnemonic does not. *)
Example mnemonic_lost_private_key_found :
  result (createWalletForUser (C := crypto) 1000 1 None) new_service
  = Resolved
      (GeneratedWallet.mk "0x00010203" "0x000102030405060708090a0b0c0d0e0f"
         "seed 0f0e0d0c0b0a09080706050403020100"
         (StoredWallet.encryptedPrivateKey <$> wallets plain !! 1))
  /\ fst (getPrivateKey (C := crypto) 1 None plain)
     = Some "0x000102030405060708090a0b0c0d0e0f"
  /\ fst (getMnemonic (C := crypto) 1 None plain) = None.
Proof. vm_compute. repeat split. Qed.

Lemma second_creation_overwrites_witness :
  match createWalletForUser (C := crypto) 2000 1 None plain with
  | (Resolved w, s') =>
    exists key,
      derived (C := crypto) (passphrases plain) 1 None = Resolved key
      /\ wallets s' !! 1
         = Some (record_of (C := crypto) key (consumed plain) 2000 1 None)
      /\ GeneratedWallet.address w
         = StoredWallet.address
             (record_of (C := crypto) key (consumed plain) 2000 1 None)
      /\ GeneratedWallet.encryptedPrivateKey w
         = Some (StoredWallet.encryptedPrivateKey
                   (record_of (C := crypto) key (consumed plain) 2000 1 None))
      /\ forall other, other <> 1 ->
           wallets s' !! other = wallets plain !! other
  | (Rejected e, s') =>
    derived (C := crypto) (passphrases plain) 1 None = Rejected e
    /\ wallets s' = wallets plain
  end.
Proof.
  eapply (second_creation_overwrites (C := crypto) 2000 1 None plain).
  vm_compute. reflexivity.
Defined.

(** C1 fails on the code: the second creation for user 1 succeeds, and the
    record stored afterwards carries another address than the first. *)
Lemma second_creation_counterexample :
  (exists w, result (createWalletForUser (C := crypto) 2000 1 None) plain
             = Resolved w)
  /\ StoredWallet.address <$> wallets plain !! 1 = Some "0x00010203"
  /\ StoredWallet.address <$> wallets plain_again !! 1 = Some "0x50515253"
  /\ wallets plain_again !! 1 <> wallets plain !! 1.
Proof.
  split; [eexists; vm_compute; reflexivity|].
  split; [vm_compute; reflexivity|].
  split; [vm_compute; reflexivity|].
  intros Heq. apply (f_equal (fmap StoredWallet.address)) in Heq.
  vm_compute in Heq. discriminate.
Qed.

Lemma flag_ignores_passphrase_record_witness :
  (exists w s',
     createWalletForUser (C := crypto) 1000 1 None with_passphrase
     = (Resolved w, s')
     /\ is_Some (passphrases s' !! 1)
     /\ hasPassphrase 1 s' = false)
  /\ (exists w s',
        createWalletForUser (C := crypto) 1000 1 (Some "hunter22") new_service
        = (Resolved w, s')
        /\ passphrases s' !! 1 = None
        /\ hasPassphrase 1 s' = true).
Proof.
  destruct (flag_ignores_passphrase_record (C := crypto) 1000 1 None
              with_passphrase) as [Hset _].
  destruct (flag_ignores_passphrase_record (C := crypto) 1000 1
              (Some "hunter22") new_service) as [_ Hunset].
  split.
  - apply Hset; [vm_compute; eauto | reflexivity].
  - apply Hunset; [reflexivity | cbn; eauto].
Defined.

(** C4 at the two failing inputs: the flag read through [hasPassphrase]
    next to the passphrase table. *)
Example flag_against_passphrase_table :
  (is_Some (passphrases set_but_unused !! 1)
   /\ hasPassphrase 1 set_but_unused = false)
  /\ (passphrases given_but_unset !! 1 = None
      /\ hasPassphrase 1 given_but_unset = true).
Proof.
  split; (split; [vm_compute; eauto | vm_compute; reflexivity]).
Qed.



End Scenarios.

(** * Further properties of the rate limiter *)

Module LimiterFacts.
Import RateLimiter LimiterNotions RateLimiterProofs.
Local Open Scope limiter_scope.

(** *** Keys *)

Lemma colon_free_digit (x : N) (s : string) :
  colon_free s = true -> colon_free (String (pretty_N_char x) s) = true.
Proof.
  intros Hs. unfold pretty_N_char. repeat case_match; cbn; exact Hs.
Qed.

Lemma colon_free_pretty_N_go (x : N) (s : string) :
  colon_free s = true -> colon_free (pretty_N_go x s) = true.
Proof.
  revert s. induction (N.lt_wf_0 x) as [x _ IH]. intros s Hs.
  destruct (decide (x = 0)%N) as [->|Hx]; [rewrite pretty_N_go_0; exact Hs|].
  rewrite pretty_N_go_step by lia.
  apply IH; [apply N.div_lt; lia | apply colon_free_digit; exact Hs].
Qed.

Lemma colon_free_show (n : Z) : colon_free (JS.show n) = true.
Proof.
  unfold JS.show, pretty, pretty_Z.
  assert (HN : forall x : N, colon_free (pretty x) = true).
  { intros x. unfold pretty, pretty_N. case_decide; [reflexivity|].
    apply colon_free_pretty_N_go. reflexivity. }
  destruct n as [|p|p]; [reflexivity | apply HN |].
  change (colon_free (String "-" (pretty (Npos p))) = true).
  cbn [colon_free]. rewrite HN. reflexivity.
Qed.

Lemma split_at_colon (x x' a a' : string) :
  colon_free x = true -> colon_free x' = true ->
  x +:+ String ":" a = x' +:+ String ":" a' -> x = x' /\ a = a'.
Proof.
  revert x'. induction x as [|c x IH]; intros [|c' x'] Hx Hx' Heq; cbn in *.
  - injection Heq as ->. split; reflexivity.
  - injection Heq as <- _. cbn in Hx'. discriminate.
  - injection Heq as -> _. cbn in Hx. discriminate.
  - injection Heq as -> Heq.
    apply andb_true_iff in Hx as [_ Hx]. apply andb_true_iff in Hx' as [_ Hx'].
    destruct (IH x' Hx Hx' Heq) as [-> ->]. split; reflexivity.
Qed.

Lemma key_of_inj (uid uid' : Z) (act act' : string) :
  key_of uid act = key_of uid' act' -> uid = uid' /\ act = act'.
Proof.
  unfold key_of. intros Heq.
  destruct (split_at_colon _ _ _ _ (colon_free_show uid)
              (colon_free_show uid') Heq) as [Hshow ->].
  split; [|reflexivity]. unfold JS.show in Hshow.
  exact (inj pretty _ _ Hshow).
Qed.

(** *** What a check and a record depend on *)

Lemma canPerformAction_ext (now uid : Z) (act : string)
  (s s' : RateLimiterService) :
  configs s !! act = configs s' !! act ->
  attempts s !! key_of uid act = attempts s' !! key_of uid act ->
  fst (canPerformAction now uid act s) = fst (canPerformAction now uid act s').
Proof.
  intros Hc Ha.
  unfold canPerformAction, bind, config_of, attempts_get, ret.
  rewrite Hc.
  destruct (configs s' !! act) as [config|]; [|reflexivity].
  cbv beta iota. rewrite Ha.
  destruct (attempts s' !! key_of uid act) as [limit|]; [|reflexivity].
  destruct (in_cooldown config limit now); [reflexivity|].
  destruct (now - windowStart limit >? windowMs config); [reflexivity|].
  destruct (count limit >=? maxAttempts config); reflexivity.
Qed.

Lemma canPerformAction_unconfigured (now uid : Z) (act : string)
  (s : RateLimiterService) :
  configs s !! act = None ->
  canPerformAction now uid act s = (mkVerdict true None None None None, s).
Proof.
  intros Hc. unfold canPerformAction, bind, config_of. rewrite Hc.
  reflexivity.
Qed.

Lemma recordAttempt_unconfigured (now uid : Z) (act : string)
  (s : RateLimiterService) :
  configs s !! act = None -> recordAttempt now uid act s = (tt, s).
Proof.
  intros Hc. unfold recordAttempt, bind, config_of. rewrite Hc. reflexivity.
Qed.

Lemma recordAttempt_other_key (now uid : Z) (act key : string)
  (s : RateLimiterService) :
  key <> key_of uid act ->
  attempts (snd (recordAttempt now uid act s)) !! key = attempts s !! key.
Proof.
  intros Hne.
  destruct (configs s !! act) as [config|] eqn:Hc.
  - rewrite (recordAttempt_state uid act now s config Hc). cbn [snd attempts].
    apply lookup_insert_ne. congruence.
  - rewrite recordAttempt_unconfigured by exact Hc. reflexivity.
Qed.

(** X1. The key [userId:action] separates pairs: two pairs have the same
    key exactly when they are the same user and the same action. *)
Theorem distinct_pairs_distinct_keys (uid uid' : Z) (act act' : string) :
  key_of uid act = key_of uid' act' <-> uid = uid' /\ act = act'.
Proof.
  split; [apply key_of_inj | intros [-> ->]; reflexivity].
Qed.

(** X2. Recording an attempt for one (user, action) pair changes the answer
    of no check for any other pair, at any time. *)
Theorem record_leaves_other_pairs (now now' uid uid' : Z) (act act' : string)
  (s : RateLimiterService) :
  (uid', act') <> (uid, act) ->
  fst (canPerformAction now' uid' act' (snd (recordAttempt now uid act s)))
  = fst (canPerformAction now' uid' act' s).
Proof.
  intros Hne. apply canPerformAction_ext.
  - rewrite recordAttempt_configs. reflexivity.
  - apply recordAttempt_other_key. intros Heq.
    apply key_of_inj in Heq as [-> ->]. contradiction.
Qed.


(** *** The shape of the table *)

Lemma getStatus_state (uid : Z) (act : string) (s : RateLimiterService) :
  snd (getStatus uid act s) = s.
Proof.
  unfold getStatus, bind, config_of, attempts_get, ret.
  destruct (configs s !! act) as [config|]; [|reflexivity].
  destruct (attempts s !! key_of uid act); reflexivity.
Qed.

Lemma well_keyed_new : well_keyed new_service.
Proof.
  intros key e He. cbn in He. rewrite lookup_empty in He. discriminate.
Qed.

Lemma well_keyed_record (now uid : Z) (act : string)
  (s : RateLimiterService) :
  well_keyed s -> well_keyed (snd (recordAttempt now uid act s)).
Proof.
  intros Hs key e.
  destruct (decide (key = key_of uid act)) as [->|Hne];
    [|rewrite recordAttempt_other_key by exact Hne; apply Hs].
  destruct (configs s !! act) as [config|] eqn:Hc;
    [|rewrite recordAttempt_unconfigured by exact Hc; apply Hs].
  rewrite (recordAttempt_state uid act now s config Hc). cbn [snd attempts].
  rewrite lookup_insert_eq.
  destruct (attempts s !! key_of uid act) as [e0|] eqn:He0.
  - destruct (Hs _ _ He0) as [Hkey Hcount].
    destruct (now - windowStart e0 >? windowMs config); intros [= <-]; cbn.
    + split; [reflexivity | lia].
    + split; [exact Hkey | lia].
  - intros [= <-]. cbn. split; [reflexivity | lia].
Qed.

Lemma well_keyed_filter (P : string * RateLimit -> Prop)
  `{!forall kv, Decision (P kv)} (s : RateLimiterService) :
  well_keyed s -> well_keyed (mkService (filter P (attempts s)) (configs s)).
Proof.
  intros Hs key e He. cbn in He.
  apply map_lookup_filter_Some_1_1 in He. exact (Hs key e He).
Qed.

(** X4. Every entry of the table is stored under the key made of its own
    [userId] and [action] fields and has a count of at least one: this holds
    for a new service and is kept by every method. *)
Theorem well_keyed_is_kept (s : RateLimiterService) :
  well_keyed new_service
  /\ (well_keyed s ->
      (forall now uid act, well_keyed (snd (canPerformAction now uid act s)))
      /\ (forall now uid act, well_keyed (snd (recordAttempt now uid act s)))
      /\ (forall uid act, well_keyed (snd (getStatus uid act s)))
      /\ (forall uid, well_keyed (snd (resetUserLimits uid s)))
      /\ (forall now, well_keyed (snd (cleanup now s)))
      /\ (forall act config, well_keyed (snd (setRateLimit act config s)))).
Proof.
  split; [exact well_keyed_new|]. intros Hs.
  split; [intros; rewrite canPerformAction_state; exact Hs|].
  split; [intros; apply well_keyed_record; exact Hs|].
  split; [intros; rewrite getStatus_state; exact Hs|].
  split; [intros; apply well_keyed_filter; exact Hs|].
  split; [intros; apply well_keyed_filter; exact Hs|].
  intros act config key e He. exact (Hs key e He).
Qed.

(** In a well-keyed table the entry of a pair carries that pair. *)
Lemma well_keyed_entry (uid : Z) (act : string) (s : RateLimiterService)
  (e : RateLimit) :
  well_keyed s -> attempts s !! key_of uid act = Some e ->
  userId e = uid /\ action e = act.
Proof.
  intros Hs He. destruct (Hs _ _ He) as [Hkey _].
  apply key_of_inj in Hkey as [-> ->]. split; reflexivity.
Qed.

(** *** Housekeeping *)

(** X5. After [resetUserLimits] for a user, every check of a configured
    action for that user is answered as for a first attempt, and the answers
    for every other user are what they were. *)
Theorem reset_clears_one_user (now uid : Z) (act : string)
  (s : RateLimiterService) (config : RateLimitConfig) :
  well_keyed s ->
  configs s !! act = Some config ->
  fst (canPerformAction now uid act (snd (resetUserLimits uid s)))
  = mkVerdict true (Some (maxAttempts config - 1))
      (Some (now + windowMs config)) None None
  /\ forall uid', uid' <> uid ->
       fst (canPerformAction now uid' act (snd (resetUserLimits uid s)))
       = fst (canPerformAction now uid' act s).
Proof.
  intros Hs Hc. split.
  - apply canPerformAction_fresh; [exact Hc|].
    cbn [snd resetUserLimits attempts].
    apply map_lookup_filter_None_2.
    destruct (attempts s !! key_of uid act) as [e|] eqn:He;
      [right | left; reflexivity].
    intros x [= <-]. cbn.
    destruct (well_keyed_entry uid act s e Hs He) as [Hu _]. tauto.
  - intros uid' Hne. apply canPerformAction_ext; [reflexivity|].
    cbn [snd resetUserLimits attempts].
    destruct (attempts s !! key_of uid' act) as [e|] eqn:He.
    + apply map_lookup_filter_Some_2; [exact He|]. cbn.
      destruct (well_keyed_entry uid' act s e Hs He) as [Hu _]. congruence.
    + apply map_lookup_filter_None_2. left. exact He.
Qed.

(** X6. [cleanup] cannot be observed through a check: for every pair, a
    check at the time of the cleanup or later gets the same answer whether
    or not the cleanup ran. *)
Theorem cleanup_changes_no_answer (now now' uid : Z) (act : string)
  (s : RateLimiterService) :
  well_keyed s ->
  now <= now' ->
  fst (canPerformAction now' uid act (snd (cleanup now s)))
  = fst (canPerformAction now' uid act s).
Proof.
  intros Hs Hle. cbn [snd cleanup].
  destruct (attempts s !! key_of uid act) as [e|] eqn:He.
  - destruct (expired (configs s) now e) eqn:Hexp.
    + (* the entry is dropped: it would have been answered as a first attempt *)
      destruct (well_keyed_entry uid act s e Hs He) as [_ Hact].
      unfold expired in Hexp. rewrite Hact in Hexp.
      destruct (configs s !! act) as [config|] eqn:Hc; [|discriminate].
      apply andb_true_iff in Hexp as [Hwin Hcool].
      rewrite (canPerformAction_fresh uid act now' _ config);
        [| exact Hc
         | cbn [attempts]; apply map_lookup_filter_None_2; right;
           intros x Hx; rewrite He in Hx; injection Hx as <-; cbn;
           unfold expired; rewrite Hact, Hc, Hwin, Hcool; discriminate].
      rewrite (canPerformAction_entry uid act now' s config e Hc He).
      assert (Hcd : in_cooldown config e now' = None).
      { unfold in_cooldown.
        destruct (JS.truthy_number (cooldownMs config)) as [cd|];
          [|reflexivity].
        destruct (lastAttempt e + cd >? now') eqn:E; [lia | reflexivity]. }
      rewrite Hcd.
      destruct (now' - windowStart e >? windowMs config) eqn:E;
        [reflexivity | lia].
    + apply canPerformAction_ext; [reflexivity|]. cbn [attempts]. rewrite He.
      apply map_lookup_filter_Some_2; [exact He | exact Hexp].
  - apply canPerformAction_ext; [reflexivity|]. cbn [attempts]. rewrite He.
    apply map_lookup_filter_None_2. left. exact He.
Qed.

(** X7. After an attempt is recorded at time [r] for a configured action
    with a non-negative window, the status of the pair reports a limit, the
    configured maximum, [r] as the last attempt, a window end that is the
    window start plus the configured duration, and [r] is not after that
    window end. *)
Theorem status_after_record (r uid : Z) (act : string)
  (s : RateLimiterService) (config : RateLimitConfig) :
  configs s !! act = Some config ->
  0 <= windowMs config ->
  exists c ws,
    fst (getStatus uid act (snd (recordAttempt r uid act s)))
    = Status.mk true (Some c) (Some (maxAttempts config)) (Some ws)
        (Some (ws + windowMs config)) (Some r)
    /\ r <= ws + windowMs config.
Proof.
  intros Hc Hwin.
  rewrite (recordAttempt_state uid act r s config Hc).
  unfold getStatus, bind, config_of, attempts_get, ret. cbn [snd fst configs].
  rewrite Hc. cbv beta iota. cbn [attempts]. rewrite lookup_insert_eq.
  destruct (attempts s !! key_of uid act) as [e|].
  - destruct (r - windowStart e >? windowMs config) eqn:E; cbn.
    + eexists _, _. split; [reflexivity | lia].
    + eexists _, _. split; [reflexivity | lia].
  - cbn. eexists _, _. split; [reflexivity | lia].
Qed.

(** *** The retry hints *)

Lemma ceil_div_covers (x : Z) : x <= 1000 * JS.ceil_div x 1000.
Proof.
  unfold JS.ceil_div.
  pose proof (Z.mul_div_le (- x) 1000 ltac:(lia)). lia.
Qed.

(** X20. The hint of a rate-limit denial, and its edge.  When a check at
    [now] is denied with a reset time [R], its message announces
    [ceil((R - now) / 1000)] seconds; on the same table every check later
    than [now] plus that many seconds is allowed, while a check exactly at
    [R] is still denied: the window reopens strictly after [R]. *)
Theorem rate_limit_hint (now uid : Z) (act : string) (s : RateLimiterService)
  (R : Z) :
  allowed (fst (canPerformAction now uid act s)) = false ->
  resetTime (fst (canPerformAction now uid act s)) = Some R ->
  message (fst (canPerformAction now uid act s))
  = Some (limit_message (JS.ceil_div (R - now) 1000))
  /\ (forall now', now + 1000 * JS.ceil_div (R - now) 1000 < now' ->
        allowed (fst (canPerformAction now' uid act s)) = true)
  /\ allowed (fst (canPerformAction R uid act s)) = false.
Proof.
  destruct (configs s !! act) as [config|] eqn:Hc;
    [|rewrite canPerformAction_unconfigured by exact Hc; discriminate].
  destruct (attempts s !! key_of uid act) as [e|] eqn:He;
    [|rewrite (canPerformAction_fresh uid act now s config Hc He);
      discriminate].
  rewrite !(canPerformAction_entry uid act _ s config e Hc He).
  unfold in_cooldown.
  destruct (JS.truthy_number (cooldownMs config)) as [cd|] eqn:Hcd.
  - destruct (lastAttempt e + cd >? now) eqn:Hin; [discriminate|].
    destruct (now - windowStart e >? windowMs config) eqn:Hwin;
      [discriminate|].
    destruct (count e >=? maxAttempts config) eqn:Hcount; [|discriminate].
    cbn [allowed resetTime message cooldownUntil]. intros _ [= <-].
    split; [reflexivity|].
    pose proof (ceil_div_covers (windowStart e + windowMs config - now)).
    split.
    + intros now' Hlater.
      rewrite (canPerformAction_entry uid act now' s config e Hc He).
      unfold in_cooldown. rewrite Hcd.
      destruct (lastAttempt e + cd >? now') eqn:Hin'; [lia|].
      destruct (now' - windowStart e >? windowMs config) eqn:Hwin';
        [reflexivity | lia].
    + destruct (lastAttempt e + cd >? windowStart e + windowMs config)
        eqn:Hin'; [reflexivity|].
      destruct (windowStart e + windowMs config - windowStart e
                >? windowMs config) eqn:Hwin'; [lia|].
      reflexivity.
  - destruct (now - windowStart e >? windowMs config) eqn:Hwin;
      [discriminate|].
    destruct (count e >=? maxAttempts config) eqn:Hcount; [|discriminate].
    cbn [allowed resetTime message cooldownUntil]. intros _ [= <-].
    split; [reflexivity|].
    pose proof (ceil_div_covers (windowStart e + windowMs config - now)).
    split.
    + intros now' Hlater.
      rewrite (canPerformAction_entry uid act now' s config e Hc He).
      unfold in_cooldown. rewrite Hcd.
      destruct (now' - windowStart e >? windowMs config) eqn:Hwin';
        [reflexivity | lia].
    + destruct (windowStart e + windowMs config - windowStart e
                >? windowMs config) eqn:Hwin'; [lia|].
      reflexivity.
Qed.

(** X21. The hint of a cooldown denial is enough.  When a check at [now] is
    denied with [cooldownUntil = U], its message announces
    [ceil((U - now) / 1000)] seconds, and on the same table no check made
    that many seconds after [now] or later is denied for cooldown. *)
Theorem cooldown_hint (now uid : Z) (act : string) (s : RateLimiterService)
  (U : Z) :
  cooldownUntil (fst (canPerformAction now uid act s)) = Some U ->
  allowed (fst (canPerformAction now uid act s)) = false
  /\ message (fst (canPerformAction now uid act s))
     = Some (cooldown_message (JS.ceil_div (U - now) 1000))
  /\ forall now', now + 1000 * JS.ceil_div (U - now) 1000 <= now' ->
       cooldownUntil (fst (canPerformAction now' uid act s)) = None.
Proof.
  destruct (configs s !! act) as [config|] eqn:Hc;
    [|rewrite canPerformAction_unconfigured by exact Hc; discriminate].
  destruct (attempts s !! key_of uid act) as [e|] eqn:He;
    [|rewrite (canPerformAction_fresh uid act now s config Hc He);
      discriminate].
  rewrite !(canPerformAction_entry uid act _ s config e Hc He).
  unfold in_cooldown.
  destruct (JS.truthy_number (cooldownMs config)) as [cd|] eqn:Hcd.
  - destruct (lastAttempt e + cd >? now) eqn:Hin.
    + cbn [allowed resetTime message cooldownUntil]. intros [= <-].
      split; [reflexivity|]. split; [reflexivity|].
      pose proof (ceil_div_covers (lastAttempt e + cd - now)).
      intros now' Hlater.
      rewrite (canPerformAction_entry uid act now' s config e Hc He).
      unfold in_cooldown. rewrite Hcd.
      destruct (lastAttempt e + cd >? now') eqn:Hin'; [lia|].
      destruct (now' - windowStart e >? windowMs config); [reflexivity|].
      destruct (count e >=? maxAttempts config); reflexivity.
    + destruct (now - windowStart e >? windowMs config); [discriminate|].
      destruct (count e >=? maxAttempts config); discriminate.
  - destruct (now - windowStart e >? windowMs config); [discriminate|].
    destruct (count e >=? maxAttempts config); discriminate.
Qed.

End LimiterFacts.

(** * Properties of the bot's rate-limited handlers *)

Module BotFacts.
Import RateLimiter LimiterNotions RateLimiterProofs LimiterFacts Bot.
Local Open Scope limiter_scope.

(** A write command either leaves the limiter alone or records one attempt. *)
Lemma executeWriteWithLimits_state (tc tr uid : Z) (act : string)
  (wallet : bool) (s : RateLimiterService) :
  snd (executeWriteWithLimits tc tr uid act wallet s) = s
  \/ snd (executeWriteWithLimits tc tr uid act wallet s)
     = snd (recordAttempt tr uid act s).
Proof.
  unfold executeWriteWithLimits. rewrite bind_run, canPerformAction_state.
  destruct (negb (allowed _)); [left; reflexivity|].
  destruct (negb wallet); [left; reflexivity|].
  right. rewrite bind_run. reflexivity.
Qed.

(** X8. A write command counts only what it submits, and never beyond the
    limit.  For a configured action with a limit of at least one and a clock
    that does not go back between check and record: when the command is
    submitted, the entry of the pair holds the time of the record and a
    count no greater than the limit; when it is blocked or finds no wallet,
    the limiter is left as it was. *)
Theorem submitted_write_within_limit (tc tr uid : Z) (act : string)
  (wallet : bool) (s : RateLimiterService) (config : RateLimitConfig) :
  configs s !! act = Some config ->
  1 <= maxAttempts config ->
  tc <= tr ->
  match executeWriteWithLimits tc tr uid act wallet s with
  | (Submitted _, s') =>
    exists e, attempts s' !! key_of uid act = Some e
              /\ count e <= maxAttempts config
              /\ lastAttempt e = tr
  | (_, s') => s' = s
  end.
Proof.
  intros Hc Hmax Hclock.
  unfold executeWriteWithLimits. rewrite bind_run, canPerformAction_state.
  destruct (allowed (fst (canPerformAction tc uid act s))) eqn:Hallowed;
    cbn [negb]; [|reflexivity].
  destruct wallet; cbn [negb]; [|reflexivity].
  rewrite bind_run. cbn [ret fst snd].
  rewrite (recordAttempt_state uid act tr s config Hc). cbn [snd attempts].
  rewrite lookup_insert_eq. eexists. split; [reflexivity|].
  destruct (attempts s !! key_of uid act) as [e0|] eqn:He0;
    [|cbn; split; [lia | reflexivity]].
  destruct (tr - windowStart e0 >? windowMs config) eqn:Hwin;
    cbn; (split; [|reflexivity]); [lia|].
  rewrite (canPerformAction_entry uid act tc s config e0 Hc He0) in Hallowed.
  destruct (in_cooldown config e0 tc); [discriminate|].
  destruct (tc - windowStart e0 >? windowMs config) eqn:Hwin'; [lia|].
  destruct (count e0 >=? maxAttempts config) eqn:Hcount; [discriminate|].
  lia.
Qed.

(** X9. A write command is submitted only once the cooldown has run out:
    if the pair has an entry and the action a non-zero cooldown, a submitted
    command was checked no earlier than the last recorded attempt plus the
    cooldown. *)
Theorem submitted_write_after_cooldown (tc tr uid : Z) (act : string)
  (wallet : bool) (s s' : RateLimiterService) (config : RateLimitConfig)
  (e0 : RateLimit) (cd : Z) (remaining : option Z) :
  configs s !! act = Some config ->
  attempts s !! key_of uid act = Some e0 ->
  cooldownMs config = Some cd ->
  cd <> 0 ->
  executeWriteWithLimits tc tr uid act wallet s = (Submitted remaining, s') ->
  lastAttempt e0 + cd <= tc.
Proof.
  intros Hc He0 Hcd Hnz.
  unfold executeWriteWithLimits. rewrite bind_run, canPerformAction_state.
  rewrite (canPerformAction_entry uid act tc s config e0 Hc He0).
  unfold in_cooldown, JS.truthy_number. rewrite Hcd.
  destruct (cd =? 0) eqn:Hz; [lia|].
  destruct (lastAttempt e0 + cd >? tc) eqn:Hin; [discriminate | lia].
Qed.

(** *** The export gate *)

Lemma export_not_a_write_action : "export_private_key" ∉ writeActions.
Proof.
  unfold writeActions. rewrite !not_elem_of_cons.
  repeat split; try discriminate. apply not_elem_of_nil.
Qed.

Lemma no_export_entry_handle (e : Event) (s : RateLimiterService) :
  from_bot e -> no_export_entry s -> no_export_entry (snd (handle e s)).
Proof.
  intros Hbot Hs uid.
  destruct e as [tc tr u act wallet | t u | t]; cbn [handle].
  - rewrite bind_run. cbn [ret snd].
    destruct (executeWriteWithLimits_state tc tr u act wallet s) as [-> | ->];
      [apply Hs|].
    rewrite recordAttempt_other_key; [apply Hs|].
    intros Heq. apply key_of_inj in Heq as [_ <-].
    exact (export_not_a_write_action Hbot).
  - rewrite bind_run. cbn [ret snd]. unfold exportGate.
    rewrite bind_run, canPerformAction_state. apply Hs.
  - rewrite bind_run. cbn [ret snd cleanup attempts].
    apply map_lookup_filter_None_2. left. apply Hs.
Qed.

Lemma exportGate_open (t uid : Z) (s : RateLimiterService) :
  no_export_entry s -> fst (exportGate t uid s) = true.
Proof.
  intros Hs. unfold exportGate. rewrite bind_run. cbn [ret fst].
  destruct (configs s !! "export_private_key") as [config|] eqn:Hc.
  - rewrite (canPerformAction_fresh uid _ t s config Hc (Hs uid)). reflexivity.
  - rewrite canPerformAction_unconfigured by exact Hc. reflexivity.
Qed.

(** X10. The export limit never triggers in the bot.  The handlers that
    guard key export only check; attempts are recorded by the write commands
    alone, and for the six write actions.  So from a limiter with no export
    entry (a new one in particular), whatever write commands, export
    commands and cleanups follow, every export command is let through, and
    no export entry ever appears. *)
Theorem export_gate_never_blocks (events : list Event)
  (s : RateLimiterService) :
  Forall from_bot events ->
  no_export_entry s ->
  Forall (fun r => r <> ExportReplied false) (fst (run events s))
  /\ no_export_entry (snd (run events s)).
Proof.
  revert s. induction events as [|e events IH]; intros s Hbot Hs.
  - split; [constructor | exact Hs].
  - inversion Hbot as [|? ? He Hrest]; subst.
    cbn [run]. rewrite bind_run, bind_run. cbn [ret fst snd].
    destruct (IH (snd (handle e s)) Hrest (no_export_entry_handle e s He Hs))
      as [Hreplies Hstate].
    split; [|exact Hstate].
    constructor; [|exact Hreplies].
    destruct e as [tc tr u act wallet | t u | t]; cbn [handle];
      rewrite bind_run; cbn [ret fst]; try discriminate.
    rewrite exportGate_open by exact Hs. discriminate.
Qed.

End BotFacts.

(** * Further properties of the wallet service *)

Module WalletFacts.
Import Hex HexProofs WalletEnhanced WalletProofs.
Local Open Scope vault_scope.

#[local] Arguments entropy_bytes : simpl never.
#[local] Arguments to_hex : simpl never.
#[local] Arguments from_hex : simpl never.

Section Vault.

Context {C : NodeCrypto}.

(** *** What the methods read *)

Lemma verified_ext (table table' : gmap Z UserPassphrase.t) (uid : Z)
  (p : string) :
  table !! uid = table' !! uid -> verified table uid p = verified table' uid p.
Proof.
  intros Ht. unfold verified, verifyPassphrase, bind, passphrases_get.
  cbn [passphrases fst]. rewrite Ht.
  destruct (table' !! uid) as [stored|]; [|reflexivity].
  unfold timingSafeEqual. destruct (Nat.eqb _ _); reflexivity.
Qed.

Lemma derived_ext (table table' : gmap Z UserPassphrase.t) (uid : Z)
  (pass : option string) :
  table !! uid = table' !! uid ->
  derived table uid pass = derived table' uid pass.
Proof.
  intros Ht. unfold derived, deriveKey, bind, passphrases_get.
  cbn [passphrases fst]. rewrite Ht.
  destruct (table' !! uid) as [stored|] eqn:Ht'; [|reflexivity].
  destruct (JS.truthy_string pass) as [p|]; [|reflexivity].
  rewrite !verifyPassphrase_reads. cbn [passphrases].
  rewrite (verified_ext table table' uid p (eq_trans Ht (eq_sym Ht'))).
  destruct (verified table' uid p) as [[|]|e]; reflexivity.
Qed.

Lemma decryptPrivateKey_reads (blob salt : string) (uid : Z)
  (pass : option string) (s : Service) :
  try_or_null (decryptPrivateKey blob salt uid pass) s
  = (opened blob salt (derived (passphrases s) uid pass), s).
Proof.
  unfold try_or_null, decryptPrivateKey, bind, opened.
  rewrite deriveKey_reads.
  destruct (derived (passphrases s) uid pass) as [key|e]; [|reflexivity].
  cbv zeta. destruct (gcm_open _ _ _ _); reflexivity.
Qed.

Lemma getPrivateKey_reads (uid : Z) (pass : option string) (s : Service) :
  getPrivateKey uid pass s
  = (match wallets s !! uid with
     | Some wallet =>
       opened (StoredWallet.encryptedPrivateKey wallet)
         (StoredWallet.salt wallet) (derived (passphrases s) uid pass)
     | None => None
     end, s).
Proof.
  unfold getPrivateKey. destruct (wallets s !! uid); [|reflexivity].
  apply decryptPrivateKey_reads.
Qed.

Lemma getMnemonic_reads (uid : Z) (pass : option string) (s : Service) :
  getMnemonic uid pass s
  = (match wallets s !! uid with
     | Some wallet =>
       opened (StoredWallet.encryptedMnemonic wallet)
         (StoredWallet.salt wallet) (derived (passphrases s) uid pass)
     | None => None
     end, s).
Proof.
  unfold getMnemonic. destruct (wallets s !! uid); [|reflexivity].
  apply decryptPrivateKey_reads.
Qed.

(** The three disclosures of a user are functions of that user's two
    records. *)
Lemma disclosures_ext (uid : Z) (s s' : Service) :
  wallets s !! uid = wallets s' !! uid ->
  passphrases s !! uid = passphrases s' !! uid ->
  forall q,
    fst (getPrivateKey uid q s) = fst (getPrivateKey uid q s')
    /\ fst (getMnemonic uid q s) = fst (getMnemonic uid q s')
    /\ forall p,
         fst (verifyPassphrase uid p s) = fst (verifyPassphrase uid p s').
Proof.
  intros Hw Hp q.
  rewrite !getPrivateKey_reads, !getMnemonic_reads. cbn [fst].
  rewrite Hw, (derived_ext _ _ uid q Hp).
  repeat split. intros p. rewrite !verifyPassphrase_reads. cbn [fst].
  apply verified_ext. exact Hp.
Qed.

Lemma createWalletForUser_tables (now uid : Z) (pass : option string)
  (s : Service) :
  passphrases (snd (createWalletForUser now uid pass s)) = passphrases s
  /\ forall other, other <> uid ->
       wallets (snd (createWalletForUser now uid pass s)) !! other
       = wallets s !! other.
Proof.
  rewrite createWalletForUser_run.
  destruct (derived (passphrases s) uid pass); cbv zeta; cbn [snd].
  - split; [reflexivity|]. intros other Hne. cbn [wallets].
    apply lookup_insert_ne. congruence.
  - split; reflexivity.
Qed.

Lemma setUserPassphrase_tables (now uid : Z) (p : string) (s : Service) :
  wallets (snd (setUserPassphrase now uid p s)) = wallets s
  /\ passphrases (snd (setUserPassphrase now uid p s)) !! uid
     = Some (UserPassphrase.mk uid
               (to_hex (scrypt p (entropy_bytes (consumed s) 32) 64))
               (to_hex (entropy_bytes (consumed s) 32)) now)
  /\ forall other, other <> uid ->
       passphrases (snd (setUserPassphrase now uid p s)) !! other
       = passphrases s !! other.
Proof.
  unfold setUserPassphrase, bind, randomBytes, passphrases_set.
  cbn [snd wallets passphrases consumed].
  split; [reflexivity|]. split; [apply lookup_insert_eq|].
  intros other Hne. apply lookup_insert_ne. congruence.
Qed.

Lemma removeWallet_tables (uid : Z) (s : Service) :
  wallets (snd (removeWallet uid s)) !! uid = None
  /\ passphrases (snd (removeWallet uid s)) !! uid = None
  /\ forall other, other <> uid ->
       wallets (snd (removeWallet uid s)) !! other = wallets s !! other
       /\ passphrases (snd (removeWallet uid s)) !! other
          = passphrases s !! other.
Proof.
  unfold removeWallet. cbn [snd wallets passphrases].
  split; [apply lookup_delete_eq|]. split; [apply lookup_delete_eq|].
  intros other Hne. split; apply lookup_delete_ne; congruence.
Qed.

Lemma verified_rejects_with (table : gmap Z UserPassphrase.t) (uid : Z)
  (p : string) (e : Error) :
  verified table uid p = Rejected e -> e = LengthMismatch.
Proof.
  unfold verified, verifyPassphrase, bind, passphrases_get, timingSafeEqual.
  cbn [passphrases fst].
  destruct (table !! uid) as [stored|]; [|discriminate].
  destruct (Nat.eqb _ _); [discriminate|]. intros [= <-]. reflexivity.
Qed.

(** *** Removing a wallet *)

(** X11. [removeWallet] answers whether the user had a wallet, and forgets
    the user: afterwards the user has no wallet and no passphrase flag, both
    disclosures return [null] and every passphrase fails verification; a
    second removal answers [false] and changes nothing; and no other user's
    disclosure is affected. *)
Theorem removeWallet_forgets_user (uid : Z) (s : Service) :
  fst (removeWallet uid s) = hasWallet uid s
  /\ hasWallet uid (snd (removeWallet uid s)) = false
  /\ hasPassphrase uid (snd (removeWallet uid s)) = false
  /\ (forall q,
        fst (getPrivateKey uid q (snd (removeWallet uid s))) = None
        /\ fst (getMnemonic uid q (snd (removeWallet uid s))) = None)
  /\ (forall p,
        fst (verifyPassphrase uid p (snd (removeWallet uid s)))
        = Resolved false)
  /\ removeWallet uid (snd (removeWallet uid s))
     = (false, snd (removeWallet uid s))
  /\ (forall other q, other <> uid ->
        fst (getPrivateKey other q (snd (removeWallet uid s)))
        = fst (getPrivateKey other q s)
        /\ fst (getMnemonic other q (snd (removeWallet uid s)))
           = fst (getMnemonic other q s)).
Proof.
  destruct (removeWallet_tables uid s) as (Hw & Hp & Hother).
  split; [reflexivity|].
  split; [unfold hasWallet; rewrite Hw; reflexivity|].
  split; [unfold hasPassphrase; rewrite Hw; reflexivity|].
  split.
  { intros q. rewrite getPrivateKey_reads, getMnemonic_reads, Hw.
    split; reflexivity. }
  split.
  { intros p. unfold verifyPassphrase, bind, passphrases_get. rewrite Hp.
    reflexivity. }
  split.
  { unfold removeWallet at 1. rewrite Hw. f_equal.
    unfold removeWallet. cbn [snd wallets passphrases consumed].
    rewrite !delete_delete_eq. reflexivity. }
  intros other q Hne. destruct (Hother other Hne) as [Hw' Hp'].
  destruct (disclosures_ext other _ s Hw' Hp' q) as (Hk & Hm & _).
  split; assumption.
Qed.

(** *** Passphrases set after the wallet *)

(** X12. Setting a passphrase changes no wallet record: the wallet table
    and every user's [hasPassphrase] flag are as before, and whatever
    [getPrivateKey] or [getMnemonic] returned without a passphrase argument
    they still return.  A wallet that exists is not protected by a
    passphrase set later. *)
Theorem late_passphrase_protects_nothing (now uid : Z) (p : string)
  (s : Service) :
  wallets (snd (setUserPassphrase now uid p s)) = wallets s
  /\ (forall u,
        hasPassphrase u (snd (setUserPassphrase now uid p s))
        = hasPassphrase u s)
  /\ (forall u q, JS.truthy_string q = None ->
        fst (getPrivateKey u q (snd (setUserPassphrase now uid p s)))
        = fst (getPrivateKey u q s)
        /\ fst (getMnemonic u q (snd (setUserPassphrase now uid p s)))
           = fst (getMnemonic u q s)).
Proof.
  destruct (setUserPassphrase_tables now uid p s) as (Hw & _ & _).
  split; [exact Hw|].
  split; [intros u; unfold hasPassphrase; rewrite Hw; reflexivity|].
  intros u q Hq. rewrite !getPrivateKey_reads, !getMnemonic_reads, Hw.
  cbn [fst].
  rewrite !(derived_fallback _ u q) by (right; exact Hq).
  split; reflexivity.
Qed.

(** X13. A passphrase set after a wallet was created without one locks
    that passphrase out: the blob stays sealed under the fallback key, so
    [getPrivateKey] with the passphrase just set (which verifies) derives
    another key and returns [null], while [getPrivateKey] without any
    passphrase returns the private key. *)
Theorem late_passphrase_locks_itself_out {L : GcmLaws C}
  {Au : GcmAuthentic C} (now now' uid : Z) (pass : option string)
  (p : string) (s : Service) :
  JS.truthy_string pass = None ->
  p <> "" ->
  fallback_key uid
    <> scrypt p (entropy_bytes (consumed s + 16 + 16 + 16 + 16 + 16) 32)
         (KdfParams.keylen kdfParams) ->
  let s1 := snd (createWalletForUser now uid pass s) in
  let s2 := snd (setUserPassphrase now' uid p s1) in
  fst (verifyPassphrase uid p s2) = Resolved true
  /\ fst (getPrivateKey uid (Some p) s2) = None
  /\ fst (getPrivateKey uid None s2)
     = Some (GeneratedWallet.privateKey (fresh_wallet (consumed s))).
Proof.
  intros Hpass Hp Hkeys s1 s2.
  assert (Hs1 : s1 = mkService
            (<[uid := record_of (fallback_key uid) (consumed s) now uid pass]>
               (wallets s))
            (passphrases s) (consumed s + 16 + 16 + 16 + 16 + 16)).
  { unfold s1. rewrite createWalletForUser_run.
    rewrite (derived_fallback _ uid pass) by (right; exact Hpass).
    reflexivity. }
  destruct (setUserPassphrase_tables now' uid p s1) as (Hw & Hrec & _).
  fold s2 in Hw, Hrec.
  assert (Hwallet : wallets s2 !! uid
            = Some (record_of (fallback_key uid) (consumed s) now uid pass)).
  { rewrite Hw, Hs1. cbn [wallets]. apply lookup_insert_eq. }
  assert (Hv : verified (passphrases s2) uid p = Resolved true)
    by apply verified_after_set.
  split; [rewrite verifyPassphrase_reads; exact Hv|].
  split.
  - rewrite (getPrivateKey_record _ _ _ _ _ _ _ Hwallet). cbn [fst].
    rewrite (derived_passphrase _ uid (Some p) _ p Hrec
               (truthy_string_nonempty p Hp)), Hv.
    cbn [UserPassphrase.salt]. rewrite from_hex_to_hex. cbv zeta.
    apply open_other. intros Heq. apply Hkeys.
    rewrite Hs1 in Heq. cbn [consumed] in Heq.
    symmetry. exact (f_equal fst Heq).
  - rewrite (getPrivateKey_record _ _ _ _ _ _ _ Hwallet). cbn [fst].
    rewrite (derived_fallback _ uid None) by (right; reflexivity).
    cbv zeta. apply open_seal.
Qed.

(** *** Users are independent *)

(** X14. Creating a wallet or setting a passphrase for one user, whether
    it succeeds or rejects, changes no other user's disclosures: for every
    other user [getPrivateKey], [getMnemonic] and [verifyPassphrase] return
    what they returned before. *)
Theorem other_users_unaffected (now uid other : Z) (pass q : option string)
  (p c : string) (s : Service) :
  other <> uid ->
  (fst (getPrivateKey other q (snd (createWalletForUser now uid pass s)))
   = fst (getPrivateKey other q s)
   /\ fst (getMnemonic other q (snd (createWalletForUser now uid pass s)))
      = fst (getMnemonic other q s)
   /\ fst (verifyPassphrase other c (snd (createWalletForUser now uid pass s)))
      = fst (verifyPassphrase other c s))
  /\ (fst (getPrivateKey other q (snd (setUserPassphrase now uid p s)))
      = fst (getPrivateKey other q s)
      /\ fst (getMnemonic other q (snd (setUserPassphrase now uid p s)))
         = fst (getMnemonic other q s)
      /\ fst (verifyPassphrase other c (snd (setUserPassphrase now uid p s)))
         = fst (verifyPassphrase other c s)).
Proof.
  intros Hne. split.
  - destruct (createWalletForUser_tables now uid pass s) as [Hp Hw].
    destruct (disclosures_ext other _ s (Hw other Hne) (f_equal (.!! other) Hp) q)
      as (Hk & Hm & Hv).
    auto.
  - destruct (setUserPassphrase_tables now uid p s) as (Hw & _ & Hp).
    destruct (disclosures_ext other _ s (f_equal (.!! other) Hw)
                (Hp other Hne) q) as (Hk & Hm & Hv).
    auto.
Qed.

(** *** When creation fails *)

(** X15. [createWalletForUser] rejects in one situation only: the user has
    a stored passphrase, a non-empty passphrase is passed, and it does not
    verify.  The error is then "Invalid passphrase" (or the length error of
    the comparison), never a cipher failure; both tables are as before, and
    the wallet that was generated is dropped after taking its 16 bytes from
    the random source.  In every other situation the call resolves and the
    user has a wallet. *)
Theorem creation_rejects_only_on_passphrase (now uid : Z)
  (pass : option string) (s : Service) :
  match createWalletForUser now uid pass s with
  | (Resolved w, s') =>
    hasWallet uid s' = true
    /\ (passphrases s !! uid = None
        \/ JS.truthy_string pass = None
        \/ exists p, JS.truthy_string pass = Some p
                     /\ verified (passphrases s) uid p = Resolved true)
  | (Rejected e, s') =>
    (exists stored p,
        passphrases s !! uid = Some stored
        /\ JS.truthy_string pass = Some p
        /\ (e = InvalidPassphrase
               /\ verified (passphrases s) uid p = Resolved false
            \/ e = LengthMismatch
               /\ verified (passphrases s) uid p = Rejected LengthMismatch))
    /\ wallets s' = wallets s
    /\ passphrases s' = passphrases s
    /\ consumed s' = (consumed s + 16)%nat
  end.
Proof.
  rewrite createWalletForUser_run.
  destruct (passphrases s !! uid) as [stored|] eqn:Hs;
    [|rewrite (derived_fallback _ uid pass) by (left; exact Hs); cbv zeta;
      split; [unfold hasWallet; cbn [wallets]; rewrite lookup_insert_eq;
              reflexivity | left; reflexivity]].
  destruct (JS.truthy_string pass) as [p|] eqn:Hp;
    [|rewrite (derived_fallback _ uid pass) by (right; exact Hp); cbv zeta;
      split; [unfold hasWallet; cbn [wallets]; rewrite lookup_insert_eq;
              reflexivity | right; left; reflexivity]].
  rewrite (derived_passphrase _ uid pass stored p Hs Hp).
  destruct (verified (passphrases s) uid p) as [[|]|e] eqn:Hv; cbv zeta.
  - split; [unfold hasWallet; cbn [wallets]; rewrite lookup_insert_eq;
            reflexivity|].
    right; right. exists p. split; [reflexivity | exact Hv].
  - split; [|repeat split]. exists stored, p.
    split; [reflexivity|]. split; [reflexivity|].
    left. split; [reflexivity | exact Hv].
  - pose proof (verified_rejects_with _ _ _ _ Hv) as ->.
    split; [|repeat split]. exists stored, p.
    split; [reflexivity|]. split; [reflexivity|].
    right. split; [reflexivity | exact Hv].
Qed.

(** *** The stored IV *)

(** X16. The 16 bytes written in front of a blob as its IV are never read
    back into the decipher: two blobs that differ only in those bytes are
    decrypted to the same outcome, so a change of the stored IV is not
    detected. *)
Theorem stored_iv_is_never_read (iv iv' rest : list byte) (salt : string)
  (uid : Z) (q : option string) (s : Service) :
  length iv = 16%nat ->
  length iv' = 16%nat ->
  decryptPrivateKey (to_hex (iv ++ rest)) salt uid q s
  = decryptPrivateKey (to_hex (iv' ++ rest)) salt uid q s.
Proof.
  intros Hiv Hiv'. unfold decryptPrivateKey, bind. rewrite deriveKey_reads.
  destruct (derived (passphrases s) uid q) as [key|e]; [|reflexivity].
  rewrite !from_hex_to_hex. unfold slice, slice_from. cbv zeta.
  rewrite (drop_app_length' iv rest 16) by (symmetry; exact Hiv).
  rewrite (drop_app_length' iv' rest 16) by (symmetry; exact Hiv').
  assert (Hd : forall l : list byte, length l = 16%nat ->
                 drop 32 (l ++ rest) = drop 16 rest).
  { intros l Hl. change 32%nat with (16 + 16)%nat.
    rewrite <- drop_drop. rewrite drop_app_length' by (symmetry; exact Hl).
    reflexivity. }
  rewrite (Hd iv Hiv), (Hd iv' Hiv'). reflexivity.
Qed.

(** *** Replacing a passphrase *)

(** X17. Replacing the passphrase orphans the wallet sealed under the old
    one.  After a wallet was created under a verified passphrase,
    [setUserPassphrase] (with any passphrase, the old one included) draws a
    new salt; from then on [getPrivateKey] returns [null] for every
    passphrase argument whose derived key (under the new salt, or the
    fallback key when the argument is empty or absent) is not the key the
    blob was sealed with. *)
Theorem passphrase_change_orphans_wallet {L : GcmLaws C}
  {Au : GcmAuthentic C} (now now' uid : Z) (p p' : string)
  (q : option string) (s : Service) (stored : UserPassphrase.t) :
  passphrases s !! uid = Some stored ->
  p <> "" ->
  verified (passphrases s) uid p = Resolved true ->
  let old_key :=
    scrypt p (from_hex (UserPassphrase.salt stored))
      (KdfParams.keylen kdfParams) in
  let s1 := snd (createWalletForUser now uid (Some p) s) in
  let s2 := snd (setUserPassphrase now' uid p' s1) in
  match JS.truthy_string q with
  | Some q' =>
    scrypt q' (entropy_bytes (consumed s + 16 + 16 + 16 + 16 + 16) 32)
      (KdfParams.keylen kdfParams) <> old_key
  | None => fallback_key uid <> old_key
  end ->
  fst (getPrivateKey uid q s2) = None.
Proof.
  intros Hs Hp Hv old_key s1 s2 Hkeys.
  assert (Hs1 : s1 = mkService
            (<[uid := record_of old_key (consumed s) now uid (Some p)]>
               (wallets s))
            (passphrases s) (consumed s + 16 + 16 + 16 + 16 + 16)).
  { unfold s1. rewrite createWalletForUser_run.
    rewrite (derived_passphrase _ uid (Some p) stored p Hs
               (truthy_string_nonempty p Hp)), Hv.
    reflexivity. }
  destruct (setUserPassphrase_tables now' uid p' s1) as (Hw & Hrec & _).
  fold s2 in Hw, Hrec.
  assert (Hwallet : wallets s2 !! uid
            = Some (record_of old_key (consumed s) now uid (Some p))).
  { rewrite Hw, Hs1. cbn [wallets]. apply lookup_insert_eq. }
  rewrite (getPrivateKey_record _ _ _ _ _ _ _ Hwallet). cbn [fst].
  destruct (JS.truthy_string q) as [q'|] eqn:Hq.
  - rewrite (derived_passphrase _ uid q _ q' Hrec Hq).
    destruct (verified (passphrases s2) uid q') as [[|]|e]; try reflexivity.
    cbn [UserPassphrase.salt]. rewrite from_hex_to_hex. cbv zeta.
    apply open_other. intros Heq. apply Hkeys.
    rewrite Hs1 in Heq. cbn [consumed] in Heq. exact (f_equal fst Heq).
  - rewrite (derived_fallback _ uid q) by (right; exact Hq). cbv zeta.
    apply open_other. intros Heq. apply Hkeys. exact (f_equal fst Heq).
Qed.

End Vault.

(** *** Statistics *)

Lemma count_wallet_bounds (today : Z) (wallet : StoredWallet.t)
  (counters : Z * Z) (n : nat) :
  0 <= counters.1 <= Z.of_nat n /\ 0 <= counters.2 <= Z.of_nat n ->
  0 <= (count_wallet today wallet counters).1 <= Z.of_nat (S n)
  /\ 0 <= (count_wallet today wallet counters).2 <= Z.of_nat (S n).
Proof.
  intros [H1 H2]. unfold count_wallet. cbn [fst snd].
  destruct (StoredWallet.createdAt wallet >=? today),
    (StoredWallet.hasPassphrase wallet); lia.
Qed.

(** X18. In the statistics neither counter exceeds the number of wallets,
    and neither is negative. *)
Theorem stats_counters_bounded (today : Z) (s : Service) :
  0 <= Stats.walletsCreatedToday (getStats today s)
    <= Stats.totalWallets (getStats today s)
  /\ 0 <= Stats.walletsWithPassphrase (getStats today s)
       <= Stats.totalWallets (getStats today s).
Proof.
  unfold getStats. cbn [Stats.walletsCreatedToday Stats.walletsWithPassphrase
                        Stats.totalWallets].
  apply (map_fold_weak_ind
           (fun (r : Z * Z) (m : gmap Z StoredWallet.t) =>
              0 <= r.1 <= Z.of_nat (size m) /\ 0 <= r.2 <= Z.of_nat (size m))).
  - rewrite map_size_empty. cbn. lia.
  - intros i x m r Hi IH. rewrite map_size_insert_None by exact Hi.
    apply count_wallet_bounds. exact IH.
Qed.

(** X19. [totalWallets] counts users, not creations: a successful
    [createWalletForUser] raises it by one for a user without a wallet and
    leaves it unchanged for a user who had one; [removeWallet] lowers it by
    one exactly when it answers [true]. *)
Theorem total_wallets_counts_users {C : NodeCrypto} (today now uid : Z)
  (pass : option string) (s : Service) :
  (forall w s', createWalletForUser now uid pass s = (Resolved w, s') ->
     Stats.totalWallets (getStats today s')
     = Stats.totalWallets (getStats today s)
       + (if hasWallet uid s then 0 else 1))
  /\ Stats.totalWallets (getStats today (snd (removeWallet uid s)))
     = Stats.totalWallets (getStats today s)
       - (if fst (removeWallet uid s) then 1 else 0).
Proof.
  unfold getStats, hasWallet, removeWallet.
  cbn [Stats.totalWallets fst snd wallets]. split.
  - intros w s'. rewrite createWalletForUser_run.
    destruct (derived (passphrases s) uid pass); [|discriminate].
    cbv zeta. intros [= _ <-]. cbn [wallets]. rewrite map_size_insert.
    destruct (wallets s !! uid) as [old|].
    + rewrite bool_decide_eq_true_2 by eauto. cbn. lia.
    + rewrite bool_decide_eq_false_2 by (intros [? ?]; discriminate). cbn. lia.
  - destruct (wallets s !! uid) as [old|] eqn:Hw.
    + rewrite bool_decide_eq_true_2 by eauto.
      rewrite <- (insert_delete_id (wallets s) uid old Hw) at 2.
      rewrite map_size_insert_None by apply lookup_delete_eq. lia.
    + rewrite bool_decide_eq_false_2 by (intros [? ?]; discriminate).
      rewrite delete_id by exact Hw. lia.
Qed.

End WalletFacts.

(** * The further properties at concrete inputs *)

Module MoreScenarios.
Import RateLimiter LimiterNotions LimiterFacts Bot BotFacts.
Import Hex WalletEnhanced Toy WalletProofs WalletFacts ToyProofs.

Lemma well_keyed_once : well_keyed once.
Proof. apply well_keyed_record, well_keyed_new. Qed.

Lemma distinct_pairs_distinct_keys_witness : 42 = 42 /\ "supply" = "supply".
Proof.
  apply (distinct_pairs_distinct_keys 42 42 "supply" "supply"). reflexivity.
Defined.

Lemma record_leaves_other_pairs_witness :
  fst (canPerformAction 2000 43 "supply" once)
  = fst (canPerformAction 2000 43 "supply" RateLimiter.new_service).
Proof.
  apply (record_leaves_other_pairs 1000 2000 42 43 "supply" "supply"
           RateLimiter.new_service).
  discriminate.
Defined.


Lemma well_keyed_is_kept_witness :
  well_keyed RateLimiter.new_service /\ well_keyed once.
Proof.
  destruct (well_keyed_is_kept RateLimiter.new_service) as [Hnew Hkept].
  destruct (Hkept Hnew) as (_ & Hrecord & _).
  split; [exact Hnew | apply Hrecord].
Defined.

Lemma reset_clears_one_user_witness :
  fst (canPerformAction 2000 42 "supply" (snd (resetUserLimits 42 once)))
  = mkVerdict true (Some 2) (Some 62000) None None
  /\ forall uid', uid' <> 42 ->
       fst (canPerformAction 2000 uid' "supply" (snd (resetUserLimits 42 once)))
       = fst (canPerformAction 2000 uid' "supply" once).
Proof.
  apply (reset_clears_one_user 2000 42 "supply" once
           (mkConfig 60000 3 (Some 30000))); [exact well_keyed_once|].
  reflexivity.
Defined.

Lemma cleanup_changes_no_answer_witness :
  fst (canPerformAction 300000 42 "supply" (snd (cleanup 200000 once)))
  = fst (canPerformAction 300000 42 "supply" once).
Proof.
  apply (cleanup_changes_no_answer 200000 300000 42 "supply" once);
    [exact well_keyed_once | lia].
Defined.

Lemma status_after_record_witness :
  exists c ws,
    fst (getStatus 42 "supply" once)
    = Status.mk true (Some c) (Some 3) (Some ws) (Some (ws + 60000))
        (Some 1000)
    /\ 1000 <= ws + 60000.
Proof.
  apply (status_after_record 1000 42 "supply" RateLimiter.new_service
           (mkConfig 60000 3 (Some 30000))); [reflexivity | cbn; lia].
Defined.

Lemma rate_limit_hint_witness :
  message (fst (canPerformAction 59000 7 "test" thrice))
  = Some "Rate limit exceeded. Try again in 2 seconds."
  /\ (forall now', 59000 + 1000 * 2 < now' ->
        allowed (fst (canPerformAction now' 7 "test" thrice)) = true)
  /\ allowed (fst (canPerformAction 60010 7 "test" thrice)) = false.
Proof.
  apply (rate_limit_hint 59000 7 "test" thrice 60010); reflexivity.
Defined.

Lemma cooldown_hint_witness :
  allowed (fst (canPerformAction 20000 42 "supply" once)) = false
  /\ message (fst (canPerformAction 20000 42 "supply" once))
     = Some "Action blocked. Cooldown active for 11 more seconds."
  /\ forall now', 20000 + 1000 * 11 <= now' ->
       cooldownUntil (fst (canPerformAction now' 42 "supply" once)) = None.
Proof.
  apply (cooldown_hint 20000 42 "supply" once 31000). reflexivity.
Defined.

Lemma submitted_write_within_limit_witness :
  match executeWriteWithLimits 40000 40001 42 "supply" true once with
  | (Submitted _, s') =>
    exists e, attempts s' !! key_of 42 "supply" = Some e
              /\ count e <= 3 /\ lastAttempt e = 40001
  | (_, s') => s' = once
  end.
Proof.
  apply (submitted_write_within_limit 40000 40001 42 "supply" true once
           (mkConfig 60000 3 (Some 30000))); [reflexivity | cbn; lia | lia].
Defined.

Lemma submitted_write_after_cooldown_witness : 1000 + 30000 <= 40000.
Proof.
  apply (submitted_write_after_cooldown 40000 40001 42 "supply" true once
           (snd (executeWriteWithLimits 40000 40001 42 "supply" true once))
           (mkConfig 60000 3 (Some 30000)) (mkRateLimit 42 "supply" 1 1000 1000)
           30000 (Some 1));
    [reflexivity | reflexivity | reflexivity | discriminate | reflexivity].
Defined.

Lemma export_gate_never_blocks_witness :
  Forall (fun r => r <> ExportReplied false)
    (fst (run a_day RateLimiter.new_service))
  /\ no_export_entry (snd (run a_day RateLimiter.new_service)).
Proof.
  apply (export_gate_never_blocks a_day RateLimiter.new_service).
  - unfold a_day. repeat constructor.
  - intros uid. apply lookup_empty.
Defined.

Lemma removeWallet_forgets_user_witness :
  fst (removeWallet 1 plain) = true
  /\ fst (getPrivateKey (C := crypto) 2 None (snd (removeWallet 1 plain)))
     = fst (getPrivateKey (C := crypto) 2 None plain).
Proof.
  destruct (removeWallet_forgets_user (C := crypto) 1 plain)
    as (Hanswer & _ & _ & _ & _ & _ & Hother).
  split; [exact Hanswer | apply Hother; discriminate].
Defined.

Lemma late_passphrase_protects_nothing_witness :
  hasPassphrase 1 set_late = false
  /\ fst (getPrivateKey (C := crypto) 1 None set_late)
     = fst (getPrivateKey (C := crypto) 1 None plain).
Proof.
  destruct (late_passphrase_protects_nothing (C := crypto) 3000 1 "hunter22"
              plain) as (_ & Hflag & Hsame).
  split; [exact (Hflag 1) | apply Hsame; reflexivity].
Defined.

Lemma late_passphrase_locks_itself_out_witness :
  fst (verifyPassphrase (C := crypto) 1 "hunter22" set_late) = Resolved true
  /\ fst (getPrivateKey (C := crypto) 1 (Some "hunter22") set_late) = None
  /\ fst (getPrivateKey (C := crypto) 1 None set_late)
     = Some "0x000102030405060708090a0b0c0d0e0f".
Proof.
  apply (late_passphrase_locks_itself_out (C := crypto)
           (L := crypto_gcm_laws) (Au := crypto_gcm_authentic)
           1000 3000 1 None "hunter22" WalletEnhanced.new_service).
  - reflexivity.
  - discriminate.
  - vm_compute. discriminate.
Defined.

Lemma other_users_unaffected_witness :
  fst (getPrivateKey (C := crypto) 1 None
         (snd (createWalletForUser (C := crypto) 2000 2 None plain)))
  = fst (getPrivateKey (C := crypto) 1 None plain).
Proof.
  apply (other_users_unaffected (C := crypto) 2000 2 1 None None "" "" plain).
  discriminate.
Defined.

Lemma stored_iv_is_never_read_witness :
  decryptPrivateKey (C := crypto) (to_hex (repeat x00 16 ++ [x2a])) "" 1 None
    plain
  = decryptPrivateKey (C := crypto) (to_hex (repeat xff 16 ++ [x2a])) "" 1
      None plain.
Proof.
  apply (stored_iv_is_never_read (C := crypto) (repeat x00 16) (repeat xff 16)
           [x2a] "" 1 None plain); reflexivity.
Defined.

Lemma passphrase_change_orphans_wallet_witness :
  fst (getPrivateKey (C := crypto) 1 (Some "new phrase") rotated) = None.
Proof.
  apply (passphrase_change_orphans_wallet (C := crypto)
           (L := crypto_gcm_laws) (Au := crypto_gcm_authentic)
           1000 3000 1 phrase "new phrase" (Some "new phrase")
           with_passphrase
           (UserPassphrase.mk 1
              (to_hex (scrypt (NodeCrypto := crypto) phrase
                         (entropy_bytes (C := crypto) 0 32) 64))
              (to_hex (entropy_bytes (C := crypto) 0 32)) 500)).
  - vm_compute. reflexivity.
  - discriminate.
  - vm_compute. reflexivity.
  - vm_compute. discriminate.
Defined.

Lemma total_wallets_counts_users_witness :
  Stats.totalWallets (getStats 0 plain)
  = Stats.totalWallets (getStats 0 WalletEnhanced.new_service) + 1.
Proof.
  destruct (total_wallets_counts_users (C := crypto) 0 1000 1 None
              WalletEnhanced.new_service) as [Hcreate _].
  apply (Hcreate plain_wallet plain). vm_compute. reflexivity.
Defined.

End MoreScenarios.
